(** * Azure Key Vault service: object retrieval and certificate normalisation

    A shallow embedding of [controller/vault/azure_keyvault_service.go]
    together with the parts of the Go standard library it calls
    ([encoding/base64], [encoding/pem]).

    Conventions
    - a Go [string] is a [string]; a Go [[]byte] is a [list ascii]
      (an [ascii] is eight bits); [[]byte(s)] and [string(b)] are
      [list_ascii_of_string] and [string_of_list_ascii];
    - a nil slice and an empty slice are both [[]] (the code never
      tells them apart);
    - a Go [map[string][]byte] is a [gmap string (list ascii)]; a map
      result that may be the nil map is an [option] of it;
    - a pointer that may be nil is an [option];
    - a Go [error] is the text its [Error()] method returns, [nil] is
      [None];
    - a run-time panic is an outcome of its own ([Panic]), kept apart from
      returned errors. *)

From Stdlib Require Import NArith ZArith Ascii.
From Stdlib Require String.
From stdpp Require Import base option list gmap strings pretty sorting.

Local Open Scope string_scope.
Local Open Scope nat_scope.
Local Open Scope list_scope.

(** ** Go run-time outcomes *)

Inductive panic : Type :=
  | IndexOutOfRange (index len : nat)   (* index out of range [index] with length len *)
  | NilDereference.                     (* invalid memory address or nil pointer dereference *)

Inductive go (A : Type) : Type :=
  | Return (a : A)
  | Panic (p : panic).
Arguments Return {A} a.
Arguments Panic {A} p.

Global Instance go_ret : MRet go := @Return.
Global Instance go_bind : MBind go := λ A B f m,
  match m with
  | Return a => f a
  | Panic p => Panic p
  end.

Definition error := string.

(** [*p] for a pointer [p]. *)
Definition deref {A} (p : option A) : go A :=
  match p with
  | Some a => Return a
  | None => Panic NilDereference
  end.

Definition bytes_of_string (s : string) : list ascii := String.list_ascii_of_string s.
Definition string_of_bytes (b : list ascii) : string := String.string_of_list_ascii b.

Definition byte_of_N (n : N) : ascii := ascii_of_N (n mod 256).

(** ** encoding/base64 *)

Module base64.

Record Encoding := {
  encode : string;            (* the 64-character alphabet *)
  padChar : option ascii;     (* [None] is NoPadding *)
  strict : bool
}.

Definition encodeStd :=
  "ABCDEFGHIJKLMNOPQRSTUVWXYZabcdefghijklmnopqrstuvwxyz0123456789+/".
Definition encodeURL :=
  "ABCDEFGHIJKLMNOPQRSTUVWXYZabcdefghijklmnopqrstuvwxyz0123456789-_".

Definition StdEncoding : Encoding :=
  {| encode := encodeStd; padChar := Some "="%char; strict := false |}.
Definition URLEncoding : Encoding :=
  {| encode := encodeURL; padChar := Some "="%char; strict := false |}.
Definition RawURLEncoding : Encoding :=
  {| encode := encodeURL; padChar := None; strict := false |}.

(** [enc.decodeMap[c]]: the table holds 0xff everywhere except at the
    alphabet's characters, which hold their position. *)
Fixpoint index_from (c : ascii) (l : list ascii) (i : N) : N :=
  match l with
  | [] => 255
  | x :: l' => if Ascii.eqb x c then i else index_from c l' (N.succ i)
  end.

Definition decodeMap (enc : Encoding) (c : ascii) : N :=
  index_from c (bytes_of_string (encode enc)) 0.

(** [CorruptInputError(n).Error()] *)
Definition CorruptInputError (n : Z) : error :=
  "illegal base64 data at input byte " +:+ pretty n.

Definition is_newline (c : ascii) : bool :=
  Ascii.eqb c "010"%char || Ascii.eqb c "013"%char.

(** [for si < len(src) && (src[si] == '\n' || src[si] == '\r') { si++ }]
    on [rest = src[si:]]. *)
Fixpoint skip_newlines (rest : list ascii) (si : nat) : list ascii * nat :=
  match rest with
  | c :: rest' => if is_newline c then skip_newlines rest' (S si) else (rest, si)
  | [] => (rest, si)
  end.

(** The scanning loop of [decodeQuantum] either returns at once or breaks
    out with [dlen] characters collected in [dbuf]. *)
Inductive scanned : Type :=
  | Returned (si n : nat) (err : option error)
  | Collected (si dlen : nat) (dbuf : list N) (err : option error).

(** [for j := 0; j < len(dbuf); j++ { ... }], with [rest = src[si:]]. *)
Fixpoint scan (enc : Encoding) (rest : list ascii) (si j : nat) (dbuf : list N)
    : scanned :=
  match rest with
  | [] =>
      if decide (j = 0) then Returned si 0 None
      else if decide (j = 1 ∨ padChar enc ≠ None)
      then Returned si 0 (Some (CorruptInputError (Z.of_nat si - Z.of_nat j)))
      else Collected si j dbuf None
  | c :: rest' =>
      let si := S si in
      let out := decodeMap enc c in
      if negb (out =? 255)%N then
        let dbuf := <[j:=out]> dbuf in
        if decide (S j < 4) then scan enc rest' si (S j) dbuf
        else Collected si 4 dbuf None
      else if is_newline c then scan enc rest' si j dbuf
      else if negb (bool_decide (Some c = padChar enc))
      then Returned si 0 (Some (CorruptInputError (Z.of_nat si - 1)))
      else
        (* we have reached the end and there is padding *)
        match j with
        | 0 | 1 => Returned si 0 (Some (CorruptInputError (Z.of_nat si - 1)))
        | _ =>
          let after_pad (rest : list ascii) (si : nat) :=
            let '(rest, si) := skip_newlines rest si in
            match rest with
            | _ :: _ => Collected si j dbuf (Some (CorruptInputError (Z.of_nat si)))
            | [] => Collected si j dbuf None
            end in
          if decide (j = 2) then
            let '(rest2, si2) := skip_newlines rest' si in
            match rest2 with
            | [] => Returned si2 0 (Some (CorruptInputError (Z.of_nat si2)))
            | c2 :: rest3 =>
                if negb (bool_decide (Some c2 = padChar enc))
                then Returned si2 0 (Some (CorruptInputError (Z.of_nat si2 - 1)))
                else after_pad rest3 (S si2)
            end
          else after_pad rest' si
        end
  end.

(** [decodeQuantum(dst[n:], src, si)]: [dst] is the caller's whole buffer
    and [n] the offset of the sub-slice, so that a write to index [k] of
    the sub-slice is a write to [dst[n+k]], checked against the
    sub-slice's length. Returns the buffer as written. *)
Definition store_at (dst : list ascii) (n k : nat) (x : ascii) : go (list ascii) :=
  if decide (n + k < length dst) then Return (<[n + k:=x]> dst)
  else Panic (IndexOutOfRange k (length dst - n)).

Definition decodeQuantum (enc : Encoding) (dst : list ascii) (n : nat)
    (src : list ascii) (si : nat) : go (list ascii * (nat * nat * option error)) :=
  match scan enc (drop si src) si 0 [0; 0; 0; 0]%N with
  | Returned nsi n' err => Return (dst, (nsi, n', err))
  | Collected nsi dlen dbuf err =>
      let d (i : nat) : N := default 0%N (dbuf !! i) in
      (* convert 4x 6bit source bytes into 3 bytes *)
      let val := N.lor (N.lor (N.lor (N.shiftl (d 0) 18) (N.shiftl (d 1) 12))
                          (N.shiftl (d 2) 6)) (d 3) in
      let dbuf2 := byte_of_N (N.shiftr val 0) in
      let dbuf1 := byte_of_N (N.shiftr val 8) in
      let dbuf0 := byte_of_N (N.shiftr val 16) in
      let nonzero (b : ascii) : bool := negb (Ascii.eqb b "000"%char) in
      let corrupt (dst : list ascii) (k : Z)
          : go (list ascii * (nat * nat * option error)) :=
        Return (dst, (nsi, 0, Some (CorruptInputError (Z.of_nat nsi - k)))) in
      (* switch dlen { case 4: ...; fallthrough; case 3: ...; fallthrough; case 2: ... } *)
      let case2 (dst : list ascii) (dbuf1 dbuf2 : ascii) :=
        dst ← store_at dst n 0 dbuf0;
        if strict enc && (nonzero dbuf1 || nonzero dbuf2) then corrupt dst 2%Z
        else Return (dst, (nsi, dlen - 1, err)) in
      let case3 (dst : list ascii) (dbuf2 : ascii) :=
        dst ← store_at dst n 1 dbuf1;
        if strict enc && nonzero dbuf2 then corrupt dst 1%Z
        else case2 dst "000"%char dbuf2 in
      let case4 (dst : list ascii) :=
        dst ← store_at dst n 2 dbuf2;
        case3 dst "000"%char in
      match dlen with
      | 4 => case4 dst
      | 3 => case3 dst dbuf2
      | 2 => case2 dst dbuf1 dbuf2
      | _ => Return (dst, (nsi, dlen - 1, err))
      end
  end.

(** [for si < len(src) { si, ninc, err = decodeQuantum(...); n += ninc;
    if err != nil { return n, err } }; return n, err].
    Every call of [decodeQuantum] at [si < len(src)] advances [si], so
    [len(src)] rounds are enough. *)
Fixpoint decodeLoop (fuel : nat) (enc : Encoding) (dst : list ascii) (n : nat)
    (src : list ascii) (si : nat) : go (list ascii * (nat * option error)) :=
  if decide (si < length src) then
    match fuel with
    | O => Return (dst, (n, None))
    | S fuel =>
        '(dst, (si, ninc, err)) ← decodeQuantum enc dst n src si;
        let n := n + ninc in
        match err with
        | Some e => Return (dst, (n, Some e))
        | None => decodeLoop fuel enc dst n src si
        end
    end
  else Return (dst, (n, None)).

(** [enc.Decode(dst, src)]. The two word-at-a-time loops that precede the
    quantum loop in the library run only while [len(dst)-n >= 8]
    (respectively [>= 4]) and leave the same [n], [err] and [dst[:n]] as
    the quantum loop does; they are not modelled apart. *)
Definition Decode (enc : Encoding) (dst src : list ascii)
    : go (list ascii * (nat * option error)) :=
  if decide (length src = 0) then Return (dst, (0, None))
  else decodeLoop (length src) enc dst 0 src 0.

Definition DecodedLen (enc : Encoding) (n : nat) : nat :=
  match padChar enc with
  | None => n * 6 / 8
  | Some _ => n / 4 * 3
  end.

(** [enc.encode[v & 0x3F]] *)
Definition encodeChar (enc : Encoding) (v : N) : ascii :=
  default "000"%char (bytes_of_string (encode enc) !! N.to_nat (N.land v 63)).

(** [enc.Encode(dst, src)] into a [dst] of [EncodedLen(len(src))] bytes,
    returning [dst]: full 3-byte groups first, then the remainder. *)
Fixpoint Encode (enc : Encoding) (src : list ascii) : list ascii :=
  let pad := match padChar enc with Some c => [c] | None => [] end in
  match src with
  | [] => []
  | [s0] =>
      let val := N.shiftl (N_of_ascii s0) 16 in
      [encodeChar enc (N.shiftr val 18); encodeChar enc (N.shiftr val 12)]
        ++ pad ++ pad
  | [s0; s1] =>
      let val := N.lor (N.shiftl (N_of_ascii s0) 16) (N.shiftl (N_of_ascii s1) 8) in
      [encodeChar enc (N.shiftr val 18); encodeChar enc (N.shiftr val 12);
       encodeChar enc (N.shiftr val 6)] ++ pad
  | s0 :: s1 :: s2 :: src' =>
      let val := N.lor (N.lor (N.shiftl (N_of_ascii s0) 16) (N.shiftl (N_of_ascii s1) 8))
                       (N_of_ascii s2) in
      [encodeChar enc (N.shiftr val 18); encodeChar enc (N.shiftr val 12);
       encodeChar enc (N.shiftr val 6); encodeChar enc val] ++ Encode enc src'
  end.

End base64.

(** ** bytes *)

Module bytes.

Fixpoint HasPrefix (s prefix : list ascii) : bool :=
  match prefix, s with
  | [], _ => true
  | p :: prefix', c :: s' => Ascii.eqb c p && HasPrefix s' prefix'
  | _ :: _, [] => false
  end.

Definition HasSuffix (s suffix : list ascii) : bool :=
  bool_decide (length suffix ≤ length s)
  && HasPrefix (drop (length s - length suffix) s) suffix.

(** [Index(s, sep)]: [None] is -1. *)
Fixpoint Index (s sep : list ascii) : option nat :=
  if HasPrefix s sep then Some 0
  else match s with
       | [] => None
       | _ :: s' => S <$> Index s' sep
       end.

Definition IndexByte (s : list ascii) (c : ascii) : option nat := Index s [c].

(** [Cut(s, sep)] *)
Definition Cut (s sep : list ascii) : option (list ascii * list ascii) :=
  i ← Index s sep; Some (take i s, drop (i + length sep) s).

Definition in_cutset (cutset : list ascii) (c : ascii) : bool :=
  existsb (Ascii.eqb c) cutset.

Fixpoint TrimLeft (s cutset : list ascii) : list ascii :=
  match s with
  | c :: s' => if in_cutset cutset c then TrimLeft s' cutset else s
  | [] => []
  end.

Definition TrimRight (s cutset : list ascii) : list ascii :=
  reverse (TrimLeft (reverse s) cutset).

(** [TrimSpace] on the ASCII white space characters (tab, newline,
    vertical tab, form feed, carriage return, space); the white space of
    Unicode beyond ASCII, in UTF-8, is left in place here. *)
Definition asciiSpace : list ascii :=
  ["009"; "010"; "011"; "012"; "013"; " "]%char.

Definition TrimSpace (s : list ascii) : list ascii :=
  TrimRight (TrimLeft s asciiSpace) asciiSpace.

End bytes.

(** ** encoding/pem *)

Module pem.

Record Block := {
  Type_ : string;
  Headers : gmap string string;
  Bytes : list ascii
}.

Definition nl : list ascii := ["010"%char].
Definition pemStart : list ascii := nl ++ bytes_of_string "-----BEGIN ".
Definition pemEnd : list ascii := nl ++ bytes_of_string "-----END ".
Definition pemEndOfLine : list ascii := bytes_of_string "-----".
Definition colon : list ascii := bytes_of_string ":".

(** [getLine]: the first line without its trailing white space and line
    end, and what follows the line end. *)
Definition getLine (data : list ascii) : list ascii * list ascii :=
  match bytes.IndexByte data "010"%char with
  | None => (bytes.TrimRight data (bytes_of_string " " ++ ["009"%char]), [])
  | Some i =>
      let j := i + 1 in
      let i := if bool_decide (0 < i) && bool_decide (data !! (i - 1) = Some "013"%char)
               then i - 1 else i in
      (bytes.TrimRight (take i data) (bytes_of_string " " ++ ["009"%char]),
       drop j data)
  end.

Definition removeSpacesAndTabs (data : list ascii) : list ascii :=
  filter (λ b, b ≠ " "%char ∧ b ≠ "009"%char) data.

(** The header loop of [Decode]: [None] when the input ends inside the
    headers ([return nil, data]), otherwise the headers read and the
    input from the first line that is not a header. *)
Fixpoint readHeaders (fuel : nat) (rest : list ascii) (h : gmap string string)
    : option (gmap string string * list ascii) :=
  if decide (length rest = 0) then None
  else
    let '(line, next) := getLine rest in
    match bytes.Cut line colon with
    | None => Some (h, rest)
    | Some (key, val) =>
        match fuel with
        | O => None
        | S fuel =>
            readHeaders fuel next
              (<[string_of_bytes (bytes.TrimSpace key) :=
                   string_of_bytes (bytes.TrimSpace val)]> h)
        end
    end.

(** What one round of the loop of [Decode] does after a BEGIN line was
    found. *)
Inductive round : Type :=
  | NoBlock                                (* return nil, data *)
  | Continue (rest : list ascii)           (* continue *)
  | Found (p : Block) (rest : list ascii). (* return p, rest *)

Definition decodeRound (rest : list ascii) : go round :=
  let '(typeLine, rest) := getLine rest in
  if negb (bytes.HasSuffix typeLine pemEndOfLine) then Return (Continue rest)
  else
  let typeLine := take (length typeLine - length pemEndOfLine) typeLine in
  match readHeaders (length rest) rest ∅ with
  | None => Return NoBlock
  | Some (headers, rest) =>
    (* If there were no headers, the END line might occur immediately,
       without a leading newline. *)
    let ends :=
      if bool_decide (size headers = 0) && bytes.HasPrefix rest (drop 1 pemEnd)
      then Some (0, length pemEnd - 1)
      else endIndex ← bytes.Index rest pemEnd;
           Some (endIndex, endIndex + length pemEnd) in
    match ends with
    | None => Return (Continue rest)
    | Some (endIndex, endTrailerIndex) =>
      (* After the "-----" of the ending line, there should be the same
         type and then a final five dashes. *)
      let endTrailer := drop endTrailerIndex rest in
      let endTrailerLen := length typeLine + length pemEndOfLine in
      if decide (length endTrailer < endTrailerLen) then Return (Continue rest)
      else
      let restOfEndLine := drop endTrailerLen endTrailer in
      let endTrailer := take endTrailerLen endTrailer in
      if negb (bytes.HasPrefix endTrailer typeLine)
         || negb (bytes.HasSuffix endTrailer pemEndOfLine)
      then Return (Continue rest)
      (* The line must end with only whitespace. *)
      else if negb (bool_decide (length (getLine restOfEndLine).1 = 0))
      then Return (Continue rest)
      else
      let base64Data := removeSpacesAndTabs (take endIndex rest) in
      let buf := replicate (base64.DecodedLen base64.StdEncoding (length base64Data))
                           "000"%char in
      '(buf, (n, err)) ← base64.Decode base64.StdEncoding buf base64Data;
      match err with
      | Some _ => Return (Continue rest)
      | None =>
          Return (Found {| Type_ := string_of_bytes typeLine;
                           Headers := headers;
                           Bytes := take n buf |}
                        (getLine (drop (endIndex + length pemEnd - 1) rest)).2)
      end
    end
  end.

(** [Decode]: the loop [for { ... }] over [rest], which starts at [data]
    and shrinks on every round. *)
Fixpoint decodeFrom (fuel : nat) (data rest : list ascii)
    : go (option Block * list ascii) :=
  let start :=
    if bytes.HasPrefix rest (drop 1 pemStart)
    then Some (drop (length pemStart - 1) rest)
    else snd <$> bytes.Cut rest pemStart in
  match start with
  | None => Return (None, data)
  | Some rest =>
      r ← decodeRound rest;
      match r with
      | NoBlock => Return (None, data)
      | Found p rest => Return (Some p, rest)
      | Continue rest =>
          match fuel with
          | O => Return (None, data)
          | S fuel => decodeFrom fuel data rest
          end
      end
  end.

Definition Decode (data : list ascii) : go (option Block * list ascii) :=
  decodeFrom (length data) data data.

Definition pemLineLength : nat := 64.

(** The [lineBreaker] writer: every full line of [pemLineLength]
    characters is followed by a newline as soon as it is full, and
    [Close] ends a line that was begun. [used] is [l.used]. *)
Fixpoint lineBreaker (b : list ascii) (used : nat) : list ascii :=
  match b with
  | [] => if decide (0 < used) then nl else []
  | c :: b' =>
      if decide (S used = pemLineLength) then c :: nl ++ lineBreaker b' 0
      else c :: lineBreaker b' (S used)
  end.

Definition writeHeader (k v : string) : list ascii :=
  bytes_of_string (k +:+ ": " +:+ v) ++ nl.

Definition procType : string := "Proc-Type".

(** [Encode(out, b)]: what is written to [out], or the error. *)
Definition Encode (b : Block) : list ascii + error :=
  let keys := (map_to_list (Headers b)).*1 in
  (* Check for invalid block before writing any output. *)
  if existsb (λ k, bool_decide (is_Some (bytes.Index (bytes_of_string k) colon))) keys
  then inr "pem: cannot encode a header key that contains a colon"
  else
  let header (k : string) := writeHeader k (default "" (Headers b !! k)) in
  let headers :=
    if decide (0 < size (Headers b)) then
      (* The Proc-Type header must be written first; the other headers
         are written sorted by key. *)
      (if bool_decide (is_Some (Headers b !! procType)) then header procType else [])
      ++ mjoin (header <$> merge_sort String.le (filter (λ k, k ≠ procType) keys))
      ++ nl
    else [] in
  inl (drop 1 pemStart ++ bytes_of_string (Type_ b +:+ "-----") ++ nl
       ++ headers
       ++ lineBreaker (base64.Encode base64.StdEncoding (Bytes b)) 0
       ++ drop 1 pemEnd ++ bytes_of_string (Type_ b +:+ "-----") ++ nl).

(** [EncodeToMemory(b)] for a pointer [b]: [Encode] reads [b.Headers]
    first, which panics on the nil pointer; an error of [Encode] gives
    the nil slice. *)
Definition EncodeToMemory (b : option Block) : go (list ascii) :=
  b ← deref b;
  match Encode b with
  | inl out => Return out
  | inr _ => Return []
  end.

End pem.

(** ** Declarations of the packages the service imports *)

Module corev1.
Definition TLSCertKey : string := "tls.crt".
Definition TLSPrivateKeyKey : string := "tls.key".
End corev1.

(** The fields of the custom resource that the service reads.
    [VaultName] is the field [Name] of [AzureKeyVault]. *)
Module v1alpha1.
Record AzureKeyVaultObject := {
  Type_ : string;
  Name : string;
  Version : string
}.
Record AzureKeyVault := {
  VaultName : string;
  Object : AzureKeyVaultObject
}.
Record AzureKeyVaultSecretOutputKey := {
  DstName : string
}.
Record AzureKeyVaultOutputSecret := {
  Keys : list AzureKeyVaultSecretOutputKey
}.
Record AzureKeyVaultSecretSpec := {
  Vault : AzureKeyVault;
  OutputSecret : AzureKeyVaultOutputSecret
}.
Record AzureKeyVaultSecret := {
  Spec : AzureKeyVaultSecretSpec
}.
End v1alpha1.

(** The bundles of the Key Vault SDK; every field is a pointer there. *)
Module keyvault.
Record KeyPropertiesT := {
  Exportable : option bool
}.
Record CertificatePolicy := {
  KeyProperties : option KeyPropertiesT
}.
Record CertificateBundle := {
  Policy : option CertificatePolicy
}.
Record SecretBundle := {
  Value : option string;
  ContentType : option string
}.

(** What the vault answers to a client: each operation takes the vault's
    base URL, the object's name and its version. *)
Record BaseClient := {
  GetCertificate : string → string → string → CertificateBundle * option error;
  GetSecret : string → string → string → SecretBundle * option error
}.

(** The requests sent to the vault, in the order they were made. *)
Inductive request : Type :=
  | GetCertificateRequest (vaultBaseURL name version : string)
  | GetSecretRequest (vaultBaseURL name version : string).
End keyvault.

(** ** Calls to the vault: a state monad over the requests made so far,
    with panics *)

Record vaultM (A : Type) : Type := VaultM {
  run : list keyvault.request → go A * list keyvault.request
}.
Arguments VaultM {A} run.
Arguments run {A} _ _.

Global Instance vaultM_ret : MRet vaultM := λ A a, VaultM (λ log, (Return a, log)).
Global Instance vaultM_bind : MBind vaultM := λ A B f m,
  VaultM (λ log,
    match run m log with
    | (Return a, log) => run (f a) log
    | (Panic p, log) => (Panic p, log)
    end).

Definition lift {A} (m : go A) : vaultM A := VaultM (λ log, (m, log)).

(** ** The service *)

Definition AzureKeyVaultObjectTypeSecret : string := "secret".
Definition AzureKeyVaultObjectTypeCertificate : string := "certificate".
Definition AzureKeyVaultObjectTypeKey : string := "key".
Definition AzureKeyVaultObjectTypeStorage : string := "storage".

Definition AzureKeyVaultCertificateTypePem : string := "application/x-pem-file".
Definition AzureKeyVaultCertificateTypePfx : string := "application/x-pkcs12".

Definition extractPemCertificate (pemCert : string) : go (gmap string (list ascii)) :=
  let secretValue : gmap string (list ascii) := ∅ in
  '(privateDer, rest) ← pem.Decode (bytes_of_string pemCert);
  '(publicDer, _) ← pem.Decode rest;
  crt ← pem.EncodeToMemory publicDer;
  let secretValue := <[corev1.TLSCertKey := crt]> secretValue in
  key ← pem.EncodeToMemory privateDer;
  let secretValue := <[corev1.TLSPrivateKeyKey := key]> secretValue in
  Return secretValue.

Section Service.

(** [pkcs12.ToPEM(pfxData, password)] of golang.org/x/crypto. *)
Variable ToPEM : list ascii → string → list pem.Block * option error.

(** [auth.NewAuthorizerFromEnvironmentWithResource(resource)]: the error,
    if any. *)
Variable NewAuthorizerFromEnvironmentWithResource : string → option error.

(** The vault behind the client that [keyvault.New()] makes. *)
Variable vault : keyvault.BaseClient.

Definition extractPfxCertificate (pfx : string)
    : go (gmap string (list ascii) * option error) :=
  let pfxRaw : list ascii := replicate 0 "000"%char in
  let secretValue : gmap string (list ascii) := ∅ in
  '(pfxRaw, (_, err)) ← base64.Decode base64.RawURLEncoding pfxRaw (bytes_of_string pfx);
  match err with
  | Some err =>
      Return (secretValue,
              Some ("failed to decode base64 encoded pfx certificate, error: " +:+ err))
  | None =>
      match ToPEM pfxRaw "" with
      | (_, Some err) =>
          Return (secretValue,
                  Some ("failed to convert pfx certificate to pem, error: " +:+ err))
      | (pemList, None) =>
          mergedPems ←
            foldl (λ acc pemCert,
                     buf ← acc;
                     enc ← pem.EncodeToMemory (Some pemCert);
                     Return (buf +:+ string_of_bytes enc))
                  (Return "") pemList;
          m ← extractPemCertificate mergedPems;
          Return (m, None)
      end
  end.

Definition getClient (resource : string)
    : option keyvault.BaseClient * option error :=
  match NewAuthorizerFromEnvironmentWithResource resource with
  | Some err => (None, Some err)
  | None => (Some vault, None)
  end.

(** [vaultClient.GetCertificate(ctx, baseURL, name, version)] *)
Definition callGetCertificate (vaultClient : option keyvault.BaseClient)
    (baseURL name version : string)
    : vaultM (keyvault.CertificateBundle * option error) :=
  c ← lift (deref vaultClient);
  VaultM (λ log, (Return (keyvault.GetCertificate c baseURL name version),
                  log ++ [keyvault.GetCertificateRequest baseURL name version])).

(** [vaultClient.GetSecret(ctx, baseURL, name, version)] *)
Definition callGetSecret (vaultClient : option keyvault.BaseClient)
    (baseURL name version : string)
    : vaultM (keyvault.SecretBundle * option error) :=
  c ← lift (deref vaultClient);
  VaultM (λ log, (Return (keyvault.GetSecret c baseURL name version),
                  log ++ [keyvault.GetSecretRequest baseURL name version])).

Definition vaultURL (name : string) : string :=
  "https://" +:+ name +:+ ".vault.azure.net".

Import v1alpha1.

Definition getSecret (secret : AzureKeyVaultSecret)
    : vaultM (option (gmap string (list ascii)) * option error) :=
  let secretValue : gmap string (list ascii) := ∅ in
  (* Get secret value from Azure Key Vault *)
  let '(vaultClient, err) := getClient "https://vault.azure.net" in
  match err with
  | Some err => mret (Some secretValue, Some err)
  | None =>
      let baseURL := vaultURL (VaultName (Vault (Spec secret))) in
      '(secretBundle, err) ←
        callGetSecret vaultClient baseURL (Name (Object (Vault (Spec secret)))) "";
      match err with
      | Some err => mret (Some secretValue, Some err)
      | None =>
          secretValue ←
            lift (foldl (λ acc key,
                           secretValue ← acc;
                           value ← deref (keyvault.Value secretBundle);
                           Return (<[DstName key := bytes_of_string value]> secretValue))
                        (Return secretValue)
                        (Keys (OutputSecret (Spec secret))));
          mret (Some secretValue, None)
      end
  end.

(** [getCertificate] returns the public/private certificate pems. *)
Definition getCertificate (secret : AzureKeyVaultSecret)
    : vaultM (option (gmap string (list ascii)) * option error) :=
  let secretValue : gmap string (list ascii) := ∅ in
  (* Get secret value from Azure Key Vault *)
  let '(vaultClient, err) := getClient "https://vault.azure.net" in
  match err with
  | Some err => mret (Some secretValue, Some err)
  | None =>
      let baseURL := vaultURL (VaultName (Vault (Spec secret))) in
      '(certBundle, err) ←
        callGetCertificate vaultClient baseURL (Name (Object (Vault (Spec secret))))
                           (Version (Object (Vault (Spec secret))));
      match err with
      | Some err =>
          mret (Some secretValue,
                Some ("failed to get certificate from azure key vault, error: " +:+ err))
      | None =>
          policy ← lift (deref (keyvault.Policy certBundle));
          keyProperties ← lift (deref (keyvault.KeyProperties policy));
          exportable ← lift (deref (keyvault.Exportable keyProperties));
          if negb exportable
          then mret (None, Some "unable to get certificate since it's not exportable")
          else
            '(secretBundle, err) ←
              callGetSecret vaultClient baseURL (Name (Object (Vault (Spec secret))))
                            (Version (Object (Vault (Spec secret))));
            match err with
            | Some err =>
                mret (Some secretValue,
                      Some ("failed to get secret from azure key vault, error: " +:+ err))
            | None =>
                contentType ← lift (deref (keyvault.ContentType secretBundle));
                if decide (contentType = AzureKeyVaultCertificateTypePem) then
                  value ← lift (deref (keyvault.Value secretBundle));
                  m ← lift (extractPemCertificate value);
                  mret (Some m, None)
                else if decide (contentType = AzureKeyVaultCertificateTypePfx) then
                  value ← lift (deref (keyvault.Value secretBundle));
                  '(m, err) ← lift (extractPfxCertificate value);
                  mret (Some m, err)
                else
                  mret (Some secretValue,
                        Some ("azure key vault secret with content-type '" +:+ contentType
                              +:+ "' not supported"))
            end
      end
  end.

(** [GetSecret] returns a secret from Azure Key Vault. *)
Definition GetSecret (secret : AzureKeyVaultSecret)
    : vaultM (option (gmap string (list ascii)) * option error) :=
  if decide (Type_ (Object (Vault (Spec secret))) = AzureKeyVaultObjectTypeCertificate)
  then getCertificate secret
  else getSecret secret.

End Service.

(** ** Vocabulary of the statements *)

Import v1alpha1.

(** A text of the unpadded URL-safe base64 alphabet that encodes at
    least one byte: not empty, every character in the alphabet, and a
    length that no encoder output has only when it is 1 modulo 4. *)
Definition isRawURLText (s : string) : bool :=
  let l := bytes_of_string s in
  forallb (λ c, negb (base64.decodeMap base64.RawURLEncoding c =? 255)%N) l
  && negb (length l =? 0) && negb (length l mod 4 =? 1).

(** What [EncodeToMemory] gives for a block that is there. *)
Definition encoded (b : pem.Block) : list ascii :=
  match pem.Encode b with
  | inl out => out
  | inr _ => []
  end.

Definition objectType (secret : AzureKeyVaultSecret) : string :=
  Type_ (Object (Vault (Spec secret))).
Definition objectName (secret : AzureKeyVaultSecret) : string :=
  Name (Object (Vault (Spec secret))).
Definition objectVersion (secret : AzureKeyVaultSecret) : string :=
  Version (Object (Vault (Spec secret))).
Definition baseURL (secret : AzureKeyVaultSecret) : string :=
  vaultURL (VaultName (Vault (Spec secret))).
Definition destinations (secret : AzureKeyVaultSecret) : list string :=
  DstName <$> Keys (OutputSecret (Spec secret)).

(** The authorizer was made, so [getClient] gives a client. *)
Definition authorized (NewAuthorizerFromEnvironmentWithResource : string → option error)
    : Prop :=
  NewAuthorizerFromEnvironmentWithResource "https://vault.azure.net" = None.

Definition certificateRequest (secret : AzureKeyVaultSecret) : keyvault.request :=
  keyvault.GetCertificateRequest (baseURL secret) (objectName secret) (objectVersion secret).
Definition secretRequest (secret : AzureKeyVaultSecret) : keyvault.request :=
  keyvault.GetSecretRequest (baseURL secret) (objectName secret) (objectVersion secret).

(** The certificate was fetched and its policy says [exportable]. *)
Definition fetchedPolicy (vault : keyvault.BaseClient) (secret : AzureKeyVaultSecret) (exportable : bool) : Prop :=
  ∃ certBundle policy keyProperties,
    keyvault.GetCertificate vault (baseURL secret) (objectName secret) (objectVersion secret)
      = (certBundle, None)
    ∧ keyvault.Policy certBundle = Some policy
    ∧ keyvault.KeyProperties policy = Some keyProperties
    ∧ keyvault.Exportable keyProperties = Some exportable.

(** The companion secret was fetched. *)
Definition fetchedSecret (vault : keyvault.BaseClient) (secret : AzureKeyVaultSecret)
    (secretBundle : keyvault.SecretBundle) : Prop :=
  keyvault.GetSecret vault (baseURL secret) (objectName secret) (objectVersion secret)
    = (secretBundle, None).

(** The secret was fetched the way [getSecret] asks for it. *)
Definition fetchedPlain (vault : keyvault.BaseClient) (secret : AzureKeyVaultSecret)
    (secretBundle : keyvault.SecretBundle) : Prop :=
  keyvault.GetSecret vault (baseURL secret) (objectName secret) "" = (secretBundle, None).

Definition plainRequest (secret : AzureKeyVaultSecret) : keyvault.request :=
  keyvault.GetSecretRequest (baseURL secret) (objectName secret) "".

(** The loop of [getSecret] over the output keys. *)
Definition copyLoop (value : option string) (keys : list AzureKeyVaultSecretOutputKey)
    (secretValue : gmap string (list ascii)) : go (gmap string (list ascii)) :=
  foldl (λ acc key,
           secretValue ← acc;
           value ← deref value;
           Return (<[DstName key := bytes_of_string value]> secretValue))
        (Return secretValue) keys.

(** What the loop of [extractPfxCertificate] over the entries writes to
    its buffer: the encodings of the entries, one after the other. *)
Definition mergePems (pemList : list pem.Block) : string :=
  foldl (λ buf pemCert, buf +:+ string_of_bytes (encoded pemCert)) "" pemList.

(** Where the scanning loop stops: [si] has moved on, by at least one
    character when there was one, and not beyond the input. *)
Definition stopped_at (r : base64.scanned) : nat :=
  match r with
  | base64.Returned nsi _ _ => nsi
  | base64.Collected nsi _ _ _ => nsi
  end.

(** No header key holds a colon. *)
Definition colonFree (h : gmap string string) : Prop :=
  ∀ k v, h !! k = Some v → ":"%char ∉ bytes_of_string k.

(** The text without its line ends. *)
Definition clean (t : list ascii) : list ascii :=
  filter (λ c, base64.is_newline c = false) t.

(** The sextets of the characters [cs], written to [dbuf] from index [j]. *)
Fixpoint fill (j : nat) (cs : list ascii) (dbuf : list N) : list N :=
  match cs with
  | [] => dbuf
  | c :: cs => fill (S j) cs (<[j:=base64.decodeMap base64.StdEncoding c]> dbuf)
  end.

(** A line that holds no line end, and does not end in a blank or a
    carriage return, is read back by [getLine] as it is. *)
Definition tidy (l : list ascii) : Prop :=
  ∀ c, last l = Some c → c ≠ " "%char ∧ c ≠ "009"%char ∧ c ≠ "013"%char.

(** A character of an encoded body: of the alphabet, or the pad. *)
Definition bodyChar (x : ascii) : Prop :=
  base64.decodeMap base64.StdEncoding x ≠ 255%N ∨ x = "="%char.

(** A block without headers whose type fits on the BEGIN line. *)
Definition bare (b : pem.Block) : Prop :=
  pem.Headers b = ∅
  ∧ ("010"%char ∉ bytes_of_string (pem.Type_ b))
  ∧ (":"%char ∉ bytes_of_string (pem.Type_ b)).

(** ** Sample inputs *)

Definition newline : string := String "010"%char "".

Definition pemText (type body : string) : string :=
  "-----BEGIN " +:+ type +:+ "-----" +:+ newline +:+ body +:+ newline
  +:+ "-----END " +:+ type +:+ "-----" +:+ newline.

Definition sampleKeyPem : string := pemText "PRIVATE KEY" "aGVsbG8h".
Definition sampleCertPem : string := pemText "CERTIFICATE" "aGVsbA==".
Definition sampleChainPem : string := pemText "CERTIFICATE" "Y2hhaW4=".

(** A parser that accepts every blob and finds a key and a certificate. *)
Definition sampleToPEM (pfxData : list ascii) (password : string)
    : list pem.Block * option error :=
  ([ {| pem.Type_ := "PRIVATE KEY"; pem.Headers := ∅;
        pem.Bytes := bytes_of_string "hello!" |};
     {| pem.Type_ := "CERTIFICATE"; pem.Headers := ∅;
        pem.Bytes := bytes_of_string "hell" |} ], None).

Definition sampleAuthorizer (resource : string) : option error := None.

Definition sampleCertificateBundle (exportable : bool) : keyvault.CertificateBundle :=
  {| keyvault.Policy :=
       Some {| keyvault.KeyProperties :=
                 Some {| keyvault.Exportable := Some exportable |} |} |}.

(** A vault that holds one certificate policy and one secret, under every
    name and version. *)
Definition sampleVault (exportable : bool) (secretBundle : keyvault.SecretBundle)
    : keyvault.BaseClient :=
  {| keyvault.GetCertificate := λ _ _ _, (sampleCertificateBundle exportable, None);
     keyvault.GetSecret := λ _ _ _, (secretBundle, None) |}.

Definition sampleRef (type version : string) (dstNames : list string)
    : AzureKeyVaultSecret :=
  {| Spec :=
       {| Vault := {| VaultName := "demo";
                      Object := {| Type_ := type; Name := "web"; Version := version |} |};
          OutputSecret := {| Keys := (λ d, {| DstName := d |}) <$> dstNames |} |} |}.

Definition pemBundle : keyvault.SecretBundle :=
  {| keyvault.Value := Some (sampleKeyPem +:+ sampleCertPem);
     keyvault.ContentType := Some AzureKeyVaultCertificateTypePem |}.

Definition untypedBundle : keyvault.SecretBundle :=
  {| keyvault.Value := Some "s3cr3t"; keyvault.ContentType := None |}.

(** An environment without credentials. *)
Definition failingAuthorizer (resource : string) : option error :=
  Some "MSI not available".

(** A parser that rejects every blob. *)
Definition rejectingToPEM (pfxData : list ascii) (password : string)
    : list pem.Block * option error :=
  ([], Some "pkcs12: error reading P12 data").

Definition emptyBundle : keyvault.SecretBundle :=
  {| keyvault.Value := None; keyvault.ContentType := None |}.

(** A vault whose two operations fail with the errors given, if any. *)
Definition failingVault (certificateError secretError : option error)
    : keyvault.BaseClient :=
  {| keyvault.GetCertificate := λ _ _ _, (sampleCertificateBundle true, certificateError);
     keyvault.GetSecret := λ _ _ _, (emptyBundle, secretError) |}.

(** A vault whose certificate bundle comes without a policy. *)
Definition barePolicyVault : keyvault.BaseClient :=
  {| keyvault.GetCertificate := λ _ _ _, ({| keyvault.Policy := None |}, None);
     keyvault.GetSecret := λ _ _ _, (pemBundle, None) |}.

Definition textBundle : keyvault.SecretBundle :=
  {| keyvault.Value := Some "s3cr3t"; keyvault.ContentType := Some "text/plain" |}.

Definition pfxBundle : keyvault.SecretBundle :=
  {| keyvault.Value := Some "MIIKPAIBAzCCCfwGCSqGSIb3DQEHAaCC";
     keyvault.ContentType := Some AzureKeyVaultCertificateTypePfx |}.

(** ** The base64 decoder on a destination of length zero *)

Section EmptyDestination.

Import base64.

Lemma scan_Returned enc rest si j dbuf nsi n err :
  scan enc rest si j dbuf = Returned nsi n err → n = 0.
Proof.
  revert si j dbuf. induction rest as [|c rest IH]; intros si j dbuf; simpl.
  - repeat case_decide; congruence.
  - destruct (negb (decodeMap enc c =? 255)%N).
    { case_decide; [apply IH | congruence]. }
    destruct (is_newline c); [apply IH |].
    destruct (negb (bool_decide (Some c = padChar enc))); [congruence |].
    destruct j as [|[|j]]; [congruence | congruence |].
    case_decide.
    + destruct (skip_newlines rest (S si)) as [rest2 si2].
      destruct rest2 as [|c2 rest3]; [congruence |].
      destruct (negb (bool_decide (Some c2 = padChar enc))); [congruence |].
      destruct (skip_newlines rest3 (S si2)) as [[|? ?] ?]; congruence.
    + destruct (skip_newlines rest (S si)) as [[|? ?] ?]; congruence.
Qed.

Lemma scan_Collected enc rest si j dbuf nsi dlen dbuf' err :
  j < 4 →
  scan enc rest si j dbuf = Collected nsi dlen dbuf' err → 2 ≤ dlen ≤ 4.
Proof.
  revert si j dbuf. induction rest as [|c rest IH]; intros si j dbuf Hj; simpl.
  - repeat case_decide; try congruence. intros [= <- <- <- <-]. lia.
  - destruct (negb (decodeMap enc c =? 255)%N).
    { case_decide; [by apply IH |]. intros [= <- <- <- <-]. lia. }
    destruct (is_newline c); [by apply IH |].
    destruct (negb (bool_decide (Some c = padChar enc))); [congruence |].
    destruct j as [|[|j]]; [congruence | congruence |].
    case_decide.
    + destruct (skip_newlines rest (S si)) as [rest2 si2].
      destruct rest2 as [|c2 rest3]; [congruence |].
      destruct (negb (bool_decide (Some c2 = padChar enc))); [congruence |].
      destruct (skip_newlines rest3 (S si2)) as [[|? ?] ?];
        intros [= <- <- <- <-]; lia.
    + destruct (skip_newlines rest (S si)) as [[|? ?] ?];
        intros [= <- <- <- <-]; lia.
Qed.

(** On an empty destination a quantum is never written: the call either
    panics or returns without a decoded byte. *)
Lemma decodeQuantum_empty enc src si dst nsi ninc err :
  decodeQuantum enc [] 0 src si = Return (dst, (nsi, ninc, err)) →
  dst = [] ∧ ninc = 0.
Proof.
  unfold decodeQuantum.
  destruct (scan enc (drop si src) si 0 [0%N; 0%N; 0%N; 0%N]) as [a b c|a dlen c d] eqn:E.
  - apply scan_Returned in E. intros [= <- <- <- <-]. done.
  - apply scan_Collected in E; [|lia].
    destruct dlen as [|[|[|[|[|dlen]]]]]; try lia; simpl; discriminate.
Qed.

Lemma decodeLoop_empty fuel enc src si dst n err :
  decodeLoop fuel enc [] 0 src si = Return (dst, (n, err)) → dst = [] ∧ n = 0.
Proof.
  revert si. induction fuel as [|fuel IH]; intros si; simpl.
  - case_decide; intros [= <- <- <-]; done.
  - case_decide; [|intros [= <- <- <-]; done].
    destruct (decodeQuantum enc [] 0 src si) as [[d [[nsi ninc] e]]|p] eqn:E;
      simpl; [|discriminate].
    apply decodeQuantum_empty in E as [-> ->]. simpl.
    destruct e; [intros [= <- <- <-]; done | apply IH].
Qed.

Lemma Decode_empty enc src dst n err :
  Decode enc [] src = Return (dst, (n, err)) → dst = [] ∧ n = 0.
Proof.
  unfold Decode. case_decide; [intros [= <- <- <-]; done |].
  apply decodeLoop_empty.
Qed.

End EmptyDestination.

(** ** The loops of the library models run to their end *)

Section Base64Rounds.

Import base64.

Lemma skip_newlines_length rest si rest' si' :
  skip_newlines rest si = (rest', si') →
  si ≤ si' ∧ si' + length rest' = si + length rest.
Proof.
  revert si. induction rest as [|c rest IH]; intros si; simpl.
  - intros [= <- <-]. simpl. lia.
  - destruct (is_newline c).
    + intros H. apply IH in H. simpl in *. lia.
    + intros [= <- <-]. simpl. lia.
Qed.

Lemma scan_advances enc rest si j dbuf :
  si + (if rest is [] then 0 else 1) ≤ stopped_at (scan enc rest si j dbuf)
  ∧ stopped_at (scan enc rest si j dbuf) ≤ si + length rest.
Proof.
  revert si j dbuf. induction rest as [|c rest IH]; intros si j dbuf.
  - simpl. repeat case_decide; simpl; lia.
  - cbn [scan length].
    assert (∀ j' dbuf', S si ≤ stopped_at (scan enc rest (S si) j' dbuf')
                        ∧ stopped_at (scan enc rest (S si) j' dbuf') ≤ S si + length rest)
      as IH'.
    { intros j' dbuf'. specialize (IH (S si) j' dbuf'). destruct rest; simpl in *; lia. }
    destruct (negb (decodeMap enc c =? 255)%N).
    { case_decide; [specialize (IH' (S j) (<[j:=decodeMap enc c]> dbuf)); lia |].
      simpl. lia. }
    destruct (is_newline c); [specialize (IH' j dbuf); lia |].
    destruct (negb (bool_decide (Some c = padChar enc))); [simpl; lia |].
    destruct j as [|[|j]]; [simpl; lia | simpl; lia |].
    case_decide.
    + destruct (skip_newlines rest (S si)) as [rest2 si2] eqn:E2.
      apply skip_newlines_length in E2.
      destruct rest2 as [|c2 rest3]; [simpl in *; lia |].
      destruct (negb (bool_decide (Some c2 = padChar enc))); [simpl in *; lia |].
      destruct (skip_newlines rest3 (S si2)) as [rest4 si4] eqn:E4.
      apply skip_newlines_length in E4.
      destruct rest4; simpl in *; lia.
    + destruct (skip_newlines rest (S si)) as [rest2 si2] eqn:E2.
      apply skip_newlines_length in E2.
      destruct rest2; simpl in *; lia.
Qed.

Lemma decodeQuantum_advances enc dst n src si dst' nsi ninc err :
  si < length src →
  decodeQuantum enc dst n src si = Return (dst', (nsi, ninc, err)) →
  si < nsi ≤ length src.
Proof.
  intros Hsi. unfold decodeQuantum.
  pose proof (scan_advances enc (drop si src) si 0 [0%N; 0%N; 0%N; 0%N]) as Hadv.
  assert (length (drop si src) = length src - si) as Hlen by apply length_drop.
  destruct (drop si src) as [|c rest] eqn:Hdrop; [simpl in Hlen; lia |].
  destruct (scan enc (c :: rest) si 0 [0%N; 0%N; 0%N; 0%N]) as [a b e|a dlen b e];
    simpl in Hadv.
  - intros [= <- <- <- <-]. simpl in Hlen. lia.
  - intros H. assert (nsi = a) as ->; [|simpl in Hlen; lia].
    destruct dlen as [|[|[|[|[|dlen]]]]]; simpl in H;
      repeat (match type of H with
              | context [store_at ?d ?n ?k ?x] => destruct (store_at d n k x); simpl in H
              | context [strict enc] => destruct (strict enc); simpl in H
              | context [negb ?b] => destruct b; simpl in H
              end);
      congruence.
Qed.

(** Fuel beyond the characters left changes nothing. *)
Lemma decodeLoop_fuel enc src fuel fuel' dst n si :
  length src - si ≤ fuel → length src - si ≤ fuel' →
  decodeLoop fuel enc dst n src si = decodeLoop fuel' enc dst n src si.
Proof.
  revert fuel' dst n si. induction fuel as [|fuel IH]; intros fuel' dst n si H1 H2.
  - destruct fuel'; simpl; case_decide; try lia; done.
  - destruct fuel' as [|fuel']; simpl; case_decide; try lia; try done.
    destruct (decodeQuantum enc dst n src si) as [[dst' [[nsi ninc] err]]|p] eqn:E;
      simpl; [|done].
    apply decodeQuantum_advances in E; [|done].
    destruct err; [done|]. apply IH; lia.
Qed.

Lemma Decode_fuel enc dst src fuel :
  length src ≤ fuel → decodeLoop fuel enc dst 0 src 0 = Decode enc dst src.
Proof.
  intros H. unfold Decode. case_decide as Hlen.
  - destruct fuel; simpl; case_decide; try lia; done.
  - apply decodeLoop_fuel; lia.
Qed.

End Base64Rounds.

Section PemRounds.

Import bytes pem.

Lemma HasPrefix_length s prefix :
  HasPrefix s prefix = true → length prefix ≤ length s.
Proof.
  revert s. induction prefix as [|p prefix IH]; intros s; simpl; [lia|].
  destruct s as [|c s]; [done|]. intros [_ H]%andb_prop. apply IH in H. simpl. lia.
Qed.

Lemma Index_bound s sep i :
  Index s sep = Some i → i + length sep ≤ length s.
Proof.
  revert i. induction s as [|c s IH]; intros i.
  - cbn [Index]. destruct (HasPrefix [] sep) eqn:E; [|done].
    intros [= <-]. by apply HasPrefix_length in E.
  - cbn [Index]. destruct (HasPrefix (c :: s) sep) eqn:E.
    + intros [= <-]. by apply HasPrefix_length in E.
    + destruct (Index s sep) as [k|]; [|done]. intros [= <-].
      specialize (IH k eq_refl). simpl. lia.
Qed.

(** [getLine]'s second result is always smaller than its argument. *)
Lemma getLine_rest data :
  length (getLine data).2 ≤ length data
  ∧ (data ≠ [] → length (getLine data).2 < length data).
Proof.
  unfold getLine, IndexByte.
  destruct (Index data ["010"%char]) as [i|] eqn:E; simpl.
  - apply Index_bound in E. simpl in E. rewrite length_drop. lia.
  - split; [lia|]. destruct data; [done|]. simpl. lia.
Qed.

Lemma readHeaders_fuel fuel fuel' rest h :
  length rest ≤ fuel → length rest ≤ fuel' →
  readHeaders fuel rest h = readHeaders fuel' rest h.
Proof.
  revert fuel' rest h. induction fuel as [|fuel IH]; intros fuel' rest h H1 H2.
  - destruct rest; [|simpl in H1; lia]. by destruct fuel'.
  - destruct fuel' as [|fuel'].
    { destruct rest; [done | simpl in H2; lia]. }
    cbn [readHeaders]. case_decide; [done|].
    pose proof (getLine_rest rest) as [_ Hlt].
    destruct (getLine rest) as [line next]. simpl in Hlt.
    destruct (Cut line colon) as [[key val]|]; [|done].
    assert (rest ≠ []) by (by intros ->).
    apply IH; specialize (Hlt ltac:(done)); lia.
Qed.

Lemma readHeaders_rest fuel rest h h' rest' :
  readHeaders fuel rest h = Some (h', rest') → length rest' ≤ length rest.
Proof.
  revert rest h. induction fuel as [|fuel IH]; intros rest h; cbn [readHeaders].
  - case_decide; [done|]. destruct (getLine rest) as [line next].
    destruct (Cut line colon) as [[key val]|]; [done|]. by intros [= <- <-].
  - case_decide; [done|].
    pose proof (getLine_rest rest) as [Hle _].
    destruct (getLine rest) as [line next]. simpl in Hle.
    destruct (Cut line colon) as [[key val]|]; [|by intros [= <- <-]].
    intros H'. apply IH in H'. lia.
Qed.

Lemma decodeRound_Continue rest rest' :
  decodeRound rest = Return (Continue rest') → length rest' ≤ length rest.
Proof.
  unfold decodeRound.
  pose proof (getLine_rest rest) as [Hle _].
  destruct (getLine rest) as [typeLine rest1]. simpl in Hle.
  destruct (negb (HasSuffix typeLine pemEndOfLine)); [intros [= <-]; lia|].
  destruct (readHeaders (length rest1) rest1 ∅) as [[headers rest2]|] eqn:E; [|done].
  apply readHeaders_rest in E.
  unfold mbind, go_bind. intros H.
  repeat case_match; simplify_eq; lia.
Qed.

(** The input after a BEGIN marker is shorter than the input. *)
Lemma after_start_shorter rest rest1 :
  (if HasPrefix rest (drop 1 pemStart)
   then Some (drop (length pemStart - 1) rest)
   else snd <$> Cut rest pemStart) = Some rest1 →
  length rest1 < length rest.
Proof.
  destruct (HasPrefix rest (drop 1 pemStart)) eqn:E.
  - apply HasPrefix_length in E. intros [= <-]. rewrite length_drop.
    change (length (drop 1 pemStart)) with 11 in E.
    change (length pemStart - 1) with 11. lia.
  - unfold Cut. destruct (Index rest pemStart) as [i|] eqn:Ei; [|done].
    apply Index_bound in Ei. simpl. intros [= <-]. rewrite length_drop.
    change (length pemStart) with 12 in *. lia.
Qed.

Lemma decodeFrom_fuel fuel fuel' data rest :
  length rest ≤ fuel → length rest ≤ fuel' →
  decodeFrom fuel data rest = decodeFrom fuel' data rest.
Proof.
  revert fuel' rest. induction fuel as [|fuel IH]; intros fuel' rest H1 H2.
  - destruct rest; [|simpl in H1; lia]. by destruct fuel'.
  - destruct fuel' as [|fuel'].
    { destruct rest; [done | simpl in H2; lia]. }
    cbn [decodeFrom].
    pose proof (after_start_shorter rest) as Hstart.
    destruct (if HasPrefix rest (drop 1 pemStart)
              then Some (drop (length pemStart - 1) rest)
              else snd <$> Cut rest pemStart) as [rest1|]; [|done].
    specialize (Hstart rest1 eq_refl).
    destruct (decodeRound rest1) as [[| rest2 | p rest2]|p] eqn:E; simpl; try done.
    apply decodeRound_Continue in E. apply IH; lia.
Qed.

(** [Decode] never stops for want of fuel. *)
Lemma Decode_enough_fuel fuel data :
  length data ≤ fuel → decodeFrom fuel data data = Decode data.
Proof. intros H. by apply decodeFrom_fuel. Qed.

End PemRounds.

(** ** Decoding into a buffer of [DecodedLen] bytes does not panic *)

Section Base64Room.

Import base64.

Lemma scan_Returned_None enc rest si j dbuf nsi n :
  scan enc rest si j dbuf = Returned nsi n None → nsi = si + length rest.
Proof.
  revert si j dbuf. induction rest as [|c rest IH]; intros si j dbuf; cbn [scan length].
  - repeat case_decide; intros [= <- <-]; lia.
  - destruct (negb (decodeMap enc c =? 255)%N).
    { case_decide; [|done]. intros H'. apply IH in H'. lia. }
    destruct (is_newline c); [intros H'; apply IH in H'; lia |].
    destruct (negb (bool_decide (Some c = padChar enc))); [done|].
    destruct j as [|[|j]]; [done | done |].
    case_decide.
    + destruct (skip_newlines rest (S si)) as [[|c2 rest3] si2]; [done|].
      destruct (negb (bool_decide (Some c2 = padChar enc))); [done|].
      by destruct (skip_newlines rest3 (S si2)) as [[|? ?] ?].
    + by destruct (skip_newlines rest (S si)) as [[|? ?] ?].
Qed.

(** With a padding character, a quantum that is collected has taken four
    characters of the input, and a short one that is collected without an
    error has taken the input to its end. *)
Lemma scan_Collected_consumed enc rest si j dbuf nsi dlen dbuf' err :
  padChar enc ≠ None → j < 4 →
  scan enc rest si j dbuf = Collected nsi dlen dbuf' err →
  si + (4 - j) ≤ nsi ∧ (dlen < 4 → err = None → nsi = si + length rest).
Proof.
  intros Hpad. revert si j dbuf.
  induction rest as [|c rest IH]; intros si j dbuf Hj; cbn [scan length].
  - repeat case_decide; try done. tauto.
  - destruct (negb (decodeMap enc c =? 255)%N).
    { case_decide.
      - intros H'. apply IH in H' as [H1 H2]; [|done].
        split; [lia|]. intros ? ?. rewrite H2 by done. lia.
      - intros [= <- <- <- <-]. lia. }
    destruct (is_newline c).
    { intros H'. apply IH in H' as [H1 H2]; [|done].
      split; [lia|]. intros ? ?. rewrite H2 by done. lia. }
    destruct (negb (bool_decide (Some c = padChar enc))); [done|].
    destruct j as [|[|j]]; [done | done |].
    case_decide.
    + destruct (skip_newlines rest (S si)) as [rest2 si2] eqn:E2.
      apply skip_newlines_length in E2.
      destruct rest2 as [|c2 rest3]; [done|].
      destruct (negb (bool_decide (Some c2 = padChar enc))); [done|].
      destruct (skip_newlines rest3 (S si2)) as [rest4 si4] eqn:E4.
      apply skip_newlines_length in E4.
      destruct rest4; intros [= <- <- <- <-]; simpl in *; split; try lia; done.
    + destruct (skip_newlines rest (S si)) as [rest2 si2] eqn:E2.
      apply skip_newlines_length in E2.
      destruct rest2; intros [= <- <- <- <-]; simpl in *; split; try lia; done.
Qed.

Lemma store_at_room dst n k x :
  n + k < length dst → store_at dst n k x = Return (<[n + k:=x]> dst).
Proof. intros H. unfold store_at. by rewrite decide_True. Qed.

(** One quantum, started at a multiple of three bytes [n = 3q] with at
    least [4q] characters behind it, in a buffer with room for three bytes
    per four characters of the input. *)
Lemma decodeQuantum_room enc dst q src si :
  padChar enc ≠ None →
  length src / 4 * 3 ≤ length dst → 4 * q ≤ si → si < length src →
  ∃ dst' nsi ninc err,
    decodeQuantum enc dst (3 * q) src si = Return (dst', (nsi, ninc, err))
    ∧ length dst' = length dst
    ∧ (err = None → nsi = length src ∨ (ninc = 3 ∧ 4 * (q + 1) ≤ nsi)).
Proof.
  intros Hpad Hdst Hq Hsi. unfold decodeQuantum.
  pose proof (scan_advances enc (drop si src) si 0 [0%N; 0%N; 0%N; 0%N]) as [_ Hle].
  assert (si + length (drop si src) = length src) as Hlen by (rewrite length_drop; lia).
  destruct (scan enc (drop si src) si 0 [0%N; 0%N; 0%N; 0%N])
    as [nsi n err|nsi dlen dbuf err] eqn:E.
  - eexists _, _, _, _. split; [done|]. split; [done|].
    intros ->. apply scan_Returned_None in E. left. by rewrite E.
  - assert (0 < 4) as H04 by lia.
    pose proof (scan_Collected _ _ _ _ _ _ _ _ _ H04 E) as Hdlen.
    apply scan_Collected_consumed in E as [Hcons Hend]; [|done|lia].
    simpl in Hle.
    assert (4 * (q + 1) ≤ length src) as Hsrc by lia.
    assert (3 * q + 3 ≤ length dst) as Hroom.
    { etrans; [|exact Hdst].
      assert (q + 1 ≤ length src / 4); [|lia].
      apply Nat.div_le_lower_bound; lia. }
    destruct dlen as [|[|[|[|[|dlen]]]]]; try lia; cbn beta iota zeta.
    all: repeat first
           [ rewrite store_at_room by (rewrite ?length_insert; lia); cbn [mbind go_bind]
           | match goal with
             | |- context [if ?b then _ else _] => destruct b
             end ].
    all: eexists _, _, _, _; (split; [done|]); rewrite ?length_insert; (split; [done|]).
    all: intros Herr; try discriminate.
    all: first [ right; split; [reflexivity | lia]
               | left; rewrite Hend by (done || lia); lia ].
Qed.

Lemma decodeLoop_room fuel enc dst q src si :
  padChar enc ≠ None →
  length src / 4 * 3 ≤ length dst → 4 * q ≤ si →
  ∃ dst' n err, decodeLoop fuel enc dst (3 * q) src si = Return (dst', (n, err)).
Proof.
  intros Hpad. revert dst q si. induction fuel as [|fuel IH]; intros dst q si Hdst Hq.
  - simpl. case_decide; by eexists _, _, _.
  - cbn [decodeLoop]. case_decide as Hsi; [|by eexists _, _, _].
    destruct (decodeQuantum_room enc dst q src si Hpad Hdst Hq Hsi)
      as (dst' & nsi & ninc & err & -> & Hlen & Hnext).
    cbn [mbind go_bind]. destruct err as [e|]; [by eexists _, _, _|].
    destruct (Hnext eq_refl) as [->|[-> Hnsi]].
    + destruct fuel; simpl; rewrite decide_False by lia; by eexists _, _, _.
    + replace (3 * q + 3) with (3 * (q + 1)) by lia. apply IH; [lia | done].
Qed.

Lemma Decode_room enc dst src :
  padChar enc ≠ None →
  DecodedLen enc (length src) ≤ length dst →
  ∃ dst' n err, Decode enc dst src = Return (dst', (n, err)).
Proof.
  intros Hpad. unfold DecodedLen, Decode.
  destruct (padChar enc) eqn:E; [|done]. intros Hdst.
  case_decide; [by eexists _, _, _|].
  apply (decodeLoop_room _ enc dst 0 src 0); [by rewrite E | done | lia].
Qed.

End Base64Room.

(** ** [pem.Decode] returns, and what it finds can be encoded *)

Section PemTotal.

Import bytes pem.

Lemma decodeRound_returns rest : ∃ r, decodeRound rest = Return r.
Proof.
  unfold decodeRound. destruct (getLine rest) as [typeLine rest1].
  destruct (negb (HasSuffix typeLine pemEndOfLine)); [by eexists|].
  destruct (readHeaders (length rest1) rest1 ∅) as [[headers rest2]|]; [|by eexists].
  cbv zeta.
  destruct (if bool_decide (size headers = 0) && HasPrefix rest2 (drop 1 pemEnd)
            then Some (0, length pemEnd - 1)
            else endIndex ← Index rest2 pemEnd; Some (endIndex, endIndex + length pemEnd))
    as [[endIndex endTrailerIndex]|]; [|by eexists].
  case_decide; [by eexists|].
  destruct (_ || _); [by eexists|].
  destruct (negb (bool_decide _)); [by eexists|].
  set (base64Data := removeSpacesAndTabs (take endIndex rest2)).
  destruct (Decode_room base64.StdEncoding
              (replicate (base64.DecodedLen base64.StdEncoding (length base64Data))
                         "000"%char)
              base64Data) as (buf & n & err & ->); [done | by rewrite length_replicate |].
  simpl. destruct err; by eexists.
Qed.

Lemma decodeFrom_returns fuel data rest :
  ∃ p rest', decodeFrom fuel data rest = Return (p, rest').
Proof.
  revert rest. induction fuel as [|fuel IH]; intros rest; cbn [decodeFrom].
  - destruct (if HasPrefix rest (drop 1 pemStart) then _ else _) as [rest1|];
      [|by eexists _, _].
    destruct (decodeRound_returns rest1) as [[| rest2 | p rest2] ->]; by eexists _, _.
  - destruct (if HasPrefix rest (drop 1 pemStart) then _ else _) as [rest1|];
      [|by eexists _, _].
    destruct (decodeRound_returns rest1) as [[| rest2 | p rest2] ->];
      [by eexists _, _ | apply IH | by eexists _, _].
Qed.

(** [pem.Decode] does not panic. *)
Lemma Decode_returns data : ∃ p rest, Decode data = Return (p, rest).
Proof. apply decodeFrom_returns. Qed.

Lemma HasPrefix_nil s : HasPrefix s [] = true.
Proof. by destruct s. Qed.

Lemma Index_byte_None s c : Index s [c] = None ↔ c ∉ s.
Proof.
  induction s as [|a s IH]; cbn [Index HasPrefix].
  - split; [intros _; apply not_elem_of_nil | done].
  - rewrite HasPrefix_nil. destruct (Ascii.eqb a c) eqn:E; simpl.
    + apply Ascii.eqb_eq in E as ->. split; [done|]. intros []. by left.
    + apply Ascii.eqb_neq in E. rewrite not_elem_of_cons, <- IH.
      destruct (Index s [c]) as [k|]; simpl.
      * split; [done | by intros [_ ?]].
      * split; [intros _; split; [congruence | done] | done].
Qed.

Lemma Index_byte_Some s c i : Index s [c] = Some i → c ∉ take i s.
Proof.
  revert i. induction s as [|a s IH]; intros i; cbn [Index HasPrefix]; [done|].
  rewrite HasPrefix_nil. destruct (Ascii.eqb a c) eqn:E; simpl.
  - intros [= <-]. apply not_elem_of_nil.
  - apply Ascii.eqb_neq in E. destruct (Index s [c]) as [k|]; [|done].
    simpl. intros [= <-]. simpl. apply not_elem_of_cons. split; [done|]. by apply IH.
Qed.

Lemma TrimLeft_elem s cutset x : x ∈ TrimLeft s cutset → x ∈ s.
Proof.
  induction s as [|a s IH]; simpl; [done|].
  destruct (in_cutset cutset a); [|done]. intros H. right. by apply IH.
Qed.

Lemma TrimRight_elem s cutset x : x ∈ TrimRight s cutset → x ∈ s.
Proof.
  unfold TrimRight. rewrite elem_of_reverse. intros H%TrimLeft_elem.
  by apply elem_of_reverse.
Qed.

Lemma TrimSpace_elem s x : x ∈ TrimSpace s → x ∈ s.
Proof. unfold TrimSpace. by intros H%TrimRight_elem%TrimLeft_elem. Qed.

Lemma bytes_of_string_of_bytes b : bytes_of_string (string_of_bytes b) = b.
Proof. apply String.list_ascii_of_string_of_list_ascii. Qed.

Lemma readHeaders_colonFree fuel rest h h' rest' :
  colonFree h → readHeaders fuel rest h = Some (h', rest') → colonFree h'.
Proof.
  revert rest h. induction fuel as [|fuel IH]; intros rest h Hh; cbn [readHeaders].
  - case_decide; [done|]. destruct (getLine rest) as [line next].
    destruct (Cut line colon) as [[key val]|]; [done|]. by intros [= <- <-].
  - case_decide; [done|]. destruct (getLine rest) as [line next].
    destruct (Cut line colon) as [[key val]|] eqn:E; [|by intros [= <- <-]].
    apply IH. intros k v. destruct (decide (k = string_of_bytes (TrimSpace key))) as [->|Hne].
    + intros _. rewrite bytes_of_string_of_bytes. intros Hin%TrimSpace_elem.
      unfold Cut in E. destruct (Index line colon) as [i|] eqn:Ei; [|done].
      simpl in E. injection E as <- <-. by apply Index_byte_Some in Ei.
    + rewrite lookup_insert_ne by done. apply Hh.
Qed.

Lemma decodeRound_colonFree rest p rest' :
  decodeRound rest = Return (Found p rest') → colonFree (Headers p).
Proof.
  unfold decodeRound, mbind, go_bind. intros H.
  repeat case_match; simplify_eq.
  all: simpl; eapply readHeaders_colonFree; [|eassumption].
  all: intros k v; by rewrite lookup_empty.
Qed.

Lemma decodeFrom_colonFree fuel data rest p rest' :
  decodeFrom fuel data rest = Return (Some p, rest') → colonFree (Headers p).
Proof.
  revert rest. induction fuel as [|fuel IH]; intros rest; cbn [decodeFrom].
  - destruct (if HasPrefix rest (drop 1 pemStart) then _ else _) as [rest1|]; [|done].
    destruct (decodeRound rest1) as [[| rest2 | p' rest2]|] eqn:E; simpl; try done.
    intros [= <- <-]. by apply decodeRound_colonFree in E.
  - destruct (if HasPrefix rest (drop 1 pemStart) then _ else _) as [rest1|]; [|done].
    destruct (decodeRound rest1) as [[| rest2 | p' rest2]|] eqn:E; simpl; try done.
    + apply IH.
    + intros [= <- <-]. by apply decodeRound_colonFree in E.
Qed.

Lemma Encode_colonFree b : colonFree (Headers b) → ∃ out, Encode b = inl out.
Proof.
  intros Hb. unfold Encode.
  destruct (existsb _ _) eqn:E; [exfalso | by eexists].
  apply existsb_exists in E as (k & Hin & Hk).
  apply bool_decide_eq_true in Hk as [i Hi].
  apply list_elem_of_In, list_elem_of_fmap in Hin as ([k' v] & -> & Hkv).
  apply elem_of_map_to_list in Hkv. simpl in Hi.
  apply Hb, Index_byte_None in Hkv. unfold colon in Hi. simpl in Hi. congruence.
Qed.

(** A block that [Decode] finds is encoded without an error. *)
Lemma Decode_encodes data p rest :
  Decode data = Return (Some p, rest) → ∃ out, Encode p = inl out.
Proof. intros H. eapply Encode_colonFree, decodeFrom_colonFree, H. Qed.

End PemTotal.

(** ** The PKCS#12 path *)

Section Pkcs12.

Import base64.

Variable ToPEM : list ascii → string → list pem.Block * option error.

Lemma scan_alphabet enc c rest si j dbuf :
  negb (decodeMap enc c =? 255)%N = true →
  scan enc (c :: rest) si j dbuf =
    if decide (S j < 4) then scan enc rest (S si) (S j) (<[j:=decodeMap enc c]> dbuf)
    else Collected (S si) 4 (<[j:=decodeMap enc c]> dbuf) None.
Proof. intros H. cbn [scan]. by rewrite H. Qed.

Lemma decodeQuantum_alphabet_panics (l : list ascii) :
  forallb (λ c, negb (decodeMap RawURLEncoding c =? 255)%N) l = true →
  2 ≤ length l →
  ∃ i, decodeQuantum RawURLEncoding [] 0 l 0 = Panic (IndexOutOfRange i 0).
Proof.
  intros Hl Hlen. unfold decodeQuantum. rewrite drop_0.
  destruct l as [|c1 [|c2 l]]; simpl in Hlen; try lia.
  cbn [forallb] in Hl. apply andb_prop in Hl as [Hc1 Hl].
  apply andb_prop in Hl as [Hc2 Hl].
  rewrite (scan_alphabet _ _ _ _ _ _ Hc1), (scan_alphabet _ _ _ _ _ _ Hc2).
  do 2 (case_decide; [|lia]).
  destruct l as [|c3 l].
  { by exists 0. }
  cbn [forallb] in Hl. apply andb_prop in Hl as [Hc3 Hl].
  rewrite (scan_alphabet _ _ _ _ _ _ Hc3). case_decide; [|lia].
  destruct l as [|c4 l].
  { by exists 1. }
  cbn [forallb] in Hl. apply andb_prop in Hl as [Hc4 Hl].
  rewrite (scan_alphabet _ _ _ _ _ _ Hc4). case_decide; [lia|].
  by exists 2.
Qed.

Lemma Decode_alphabet_panics (s : string) :
  isRawURLText s = true →
  ∃ i, Decode RawURLEncoding [] (bytes_of_string s) = Panic (IndexOutOfRange i 0).
Proof.
  unfold isRawURLText. intros H.
  apply andb_prop in H as [H Hmod]. apply andb_prop in H as [Hall Hne].
  apply negb_true_iff, Nat.eqb_neq in Hne, Hmod.
  set (l := bytes_of_string s) in *.
  assert (2 ≤ length l) as Hlen.
  { destruct l as [|? [|? ?]]; simpl in *; try lia; done. }
  destruct (decodeQuantum_alphabet_panics l Hall Hlen) as [i Hi].
  exists i. unfold Decode. case_decide; [lia|].
  destruct (length l) as [|k] eqn:E; [lia|].
  cbn [decodeLoop]. rewrite E. case_decide; [|lia]. by rewrite Hi.
Qed.

(** Whatever the input, the blob handed to the PKCS#12 parser is the
    empty one: a result other than the base64 error is the result for the
    empty input. *)
Lemma extractPfxCertificate_parses_empty_blob (pfx : string) r :
  extractPfxCertificate ToPEM pfx = Return r →
  (∃ e, r = (∅, Some ("failed to decode base64 encoded pfx certificate, error: " +:+ e)))
  ∨ extractPfxCertificate ToPEM "" = Return r.
Proof.
  unfold extractPfxCertificate. simpl replicate.
  destruct (Decode RawURLEncoding [] (bytes_of_string pfx))
    as [[dst [n err]]|p] eqn:E; simpl; [|discriminate].
  apply Decode_empty in E as [-> ->].
  destruct err as [e|].
  - intros [= <-]. left. by exists e.
  - intros H. by right.
Qed.

(** C1 (code defect). The destination buffer of the base64 decoding is
    made with length zero. For the input AAAA, the encoding of three zero
    bytes, the decoder's first write, to index 2, is out of range and the
    function panics; it neither decodes into a buffer of three bytes nor
    returns an error. And for every input the function panics, or returns
    the base64 error, or does what it does for the empty input: no byte of
    the input ever reaches the PKCS#12 parser. *)
Theorem extractPfxCertificate_zero_length_buffer :
  extractPfxCertificate ToPEM "AAAA" = Panic (IndexOutOfRange 2 0)
  ∧ ∀ pfx : string,
      (∃ p, extractPfxCertificate ToPEM pfx = Panic p)
      ∨ (∃ e, extractPfxCertificate ToPEM pfx =
                Return (∅, Some ("failed to decode base64 encoded pfx certificate, error: "
                                 +:+ e)))
      ∨ extractPfxCertificate ToPEM pfx = extractPfxCertificate ToPEM "".
Proof.
  split; [reflexivity|]. intros pfx.
  destruct (extractPfxCertificate ToPEM pfx) as [r|p] eqn:E; [|left; by exists p].
  right. apply extractPfxCertificate_parses_empty_blob in E as [[e ->]| ->].
  - left. by exists e.
  - by right.
Qed.

(** C6 (code defect). For every text of the unpadded URL-safe alphabet
    that encodes at least one byte, in particular for the encoding of
    every PKCS#12 archive, the function panics on a write out of range
    into its zero-length buffer, whatever the parser would make of the
    archive; it returns no material at all. *)
Theorem extractPfxCertificate_panics_on_archive (pfx : string) :
  isRawURLText pfx = true →
  ∃ i, extractPfxCertificate ToPEM pfx = Panic (IndexOutOfRange i 0).
Proof.
  intros H. destruct (Decode_alphabet_panics pfx H) as [i Hi].
  exists i. unfold extractPfxCertificate. simpl replicate. by rewrite Hi.
Qed.

End Pkcs12.

(** The first characters of the encoding of a DER sequence, as every
    PKCS#12 archive begins. *)
Lemma extractPfxCertificate_panics_on_archive_witness :
  ∃ i, extractPfxCertificate sampleToPEM "MIIKPAIBAzCCCfwGCSqGSIb3DQEHAaCC"
       = Panic (IndexOutOfRange i 0).
Proof.
  apply (extractPfxCertificate_panics_on_archive sampleToPEM). reflexivity.
Defined.

(** ** The PEM path *)

Section Pem.

Lemma EncodeToMemory_Some b : pem.EncodeToMemory (Some b) = Return (encoded b).
Proof. unfold pem.EncodeToMemory, encoded. simpl. by destruct (pem.Encode b). Qed.

Lemma EncodeToMemory_None : pem.EncodeToMemory None = Panic NilDereference.
Proof. reflexivity. Qed.

(** C2 (code defect). When [pem.Decode] finds no block, for the key or
    for the certificate, the nil block is handed to [pem.EncodeToMemory],
    which dereferences it: the function panics, and returns no mapping
    with an empty value under the key concerned. *)
Theorem extractPemCertificate_missing_block_panics
    (pemCert : string) privateDer rest publicDer rest' :
  pem.Decode (bytes_of_string pemCert) = Return (privateDer, rest) →
  pem.Decode rest = Return (publicDer, rest') →
  privateDer = None ∨ publicDer = None →
  extractPemCertificate pemCert = Panic NilDereference.
Proof.
  intros H1 H2 Hnil. unfold extractPemCertificate.
  rewrite H1. simpl. rewrite H2. simpl.
  destruct publicDer as [pub|]; [|done].
  destruct Hnil as [->|?]; [|done].
  by rewrite EncodeToMemory_Some.
Qed.

(** C5. When [pem.Decode] finds a block in the input and a second one in
    what follows the first, both blocks are encoded to PEM without an
    error and the result holds exactly two entries: the encoding of the
    first block under tls.key and that of the second under tls.crt. What
    follows the second block is not looked at. *)
Theorem extractPemCertificate_first_two_blocks
    (pemCert : string) privateDer rest publicDer rest' :
  pem.Decode (bytes_of_string pemCert) = Return (Some privateDer, rest) →
  pem.Decode rest = Return (Some publicDer, rest') →
  ∃ key crt,
    pem.Encode privateDer = inl key
    ∧ pem.Encode publicDer = inl crt
    ∧ extractPemCertificate pemCert =
        Return (<["tls.key" := key]> (<["tls.crt" := crt]> ∅)).
Proof.
  intros H1 H2.
  destruct (Decode_encodes _ _ _ H1) as [key Hkey].
  destruct (Decode_encodes _ _ _ H2) as [crt Hcrt].
  exists key, crt. split; [done|]. split; [done|].
  unfold extractPemCertificate.
  rewrite H1. simpl. rewrite H2. simpl.
  rewrite !EncodeToMemory_Some. unfold encoded. by rewrite Hkey, Hcrt.
Qed.

(** The two outcomes of the PEM path: two entries, or the panic on a block
    that was not found. *)
Lemma extractPemCertificate_outcomes (pemCert : string) :
  extractPemCertificate pemCert = Panic NilDereference
  ∨ ∃ key crt,
      extractPemCertificate pemCert =
        Return (<["tls.key" := key]> (<["tls.crt" := crt]> ∅)).
Proof.
  destruct (Decode_returns (bytes_of_string pemCert)) as (privateDer & rest & H1).
  destruct (Decode_returns rest) as (publicDer & rest' & H2).
  unfold extractPemCertificate. rewrite H1. simpl. rewrite H2. simpl.
  destruct publicDer as [publicDer|]; [|by left].
  rewrite EncodeToMemory_Some. simpl.
  destruct privateDer as [privateDer|]; [|by left].
  rewrite EncodeToMemory_Some. simpl. right. by eexists _, _.
Qed.

End Pem.

Lemma extractPemCertificate_missing_block_panics_witness :
  extractPemCertificate sampleKeyPem = Panic NilDereference.
Proof.
  apply (extractPemCertificate_missing_block_panics sampleKeyPem
           (Some {| pem.Type_ := "PRIVATE KEY"; pem.Headers := ∅;
                    pem.Bytes := bytes_of_string "hello!" |}) [] None []).
  - reflexivity.
  - reflexivity.
  - by right.
Defined.

Lemma extractPemCertificate_first_two_blocks_witness :
  extractPemCertificate (sampleKeyPem +:+ sampleCertPem +:+ sampleChainPem) =
    Return (<["tls.key" := bytes_of_string sampleKeyPem]>
              (<["tls.crt" := bytes_of_string sampleCertPem]> ∅)).
Proof.
  destruct (extractPemCertificate_first_two_blocks
              (sampleKeyPem +:+ sampleCertPem +:+ sampleChainPem)
              {| pem.Type_ := "PRIVATE KEY"; pem.Headers := ∅;
                 pem.Bytes := bytes_of_string "hello!" |}
              (bytes_of_string (sampleCertPem +:+ sampleChainPem))
              {| pem.Type_ := "CERTIFICATE"; pem.Headers := ∅;
                 pem.Bytes := bytes_of_string "hell" |}
              (bytes_of_string sampleChainPem))
    as (key & crt & Hkey & Hcrt & Hrun).
  - reflexivity.
  - reflexivity.
  - rewrite Hrun.
    vm_compute in Hkey. injection Hkey as <-.
    vm_compute in Hcrt. injection Hcrt as <-.
    reflexivity.
Defined.

(** ** The object retriever *)

Section Retriever.

Import v1alpha1.

Variable ToPEM : list ascii → string → list pem.Block * option error.
Variable NewAuthorizerFromEnvironmentWithResource : string → option error.
Variable vault : keyvault.BaseClient.

Local Abbreviation getSecret :=
  (getSecret NewAuthorizerFromEnvironmentWithResource vault).
Local Abbreviation getCertificate :=
  (getCertificate ToPEM NewAuthorizerFromEnvironmentWithResource vault).
Local Abbreviation GetSecret :=
  (GetSecret ToPEM NewAuthorizerFromEnvironmentWithResource vault).
Local Abbreviation authorized := (authorized NewAuthorizerFromEnvironmentWithResource).
Local Abbreviation fetchedPolicy := (fetchedPolicy vault).
Local Abbreviation fetchedSecret := (fetchedSecret vault).
Local Abbreviation fetchedPlain := (fetchedPlain vault).

(** *** The loop over the output keys *)

Lemma copyLoop_Some v keys m0 :
  copyLoop (Some v) keys m0 =
    Return (foldl (λ m key, <[DstName key := bytes_of_string v]> m) m0 keys).
Proof.
  unfold copyLoop. revert m0. induction keys as [|key keys IH]; intros m0; [done|].
  simpl. apply IH.
Qed.

Lemma copied_lookup (v : list ascii) keys (m0 : gmap string (list ascii)) d :
  foldl (λ m key, <[DstName key := v]> m) m0 keys !! d =
    if decide (d ∈ DstName <$> keys) then Some v else m0 !! d.
Proof.
  revert m0. induction keys as [|key keys IH]; intros m0; cbn [foldl].
  - rewrite decide_False; [done | apply not_elem_of_nil].
  - rewrite IH, fmap_cons.
    destruct (decide (d ∈ DstName <$> keys)) as [Hin|Hin].
    + rewrite decide_True; [done | by apply elem_of_cons; right].
    + destruct (decide (d = DstName key)) as [->|Hne].
      * rewrite lookup_insert_eq, decide_True; [done | by apply elem_of_cons; left].
      * rewrite lookup_insert_ne, decide_False; [done | | done].
        by intros [?|?]%elem_of_cons.
Qed.

Lemma copied_eq (v : list ascii) keys :
  foldl (λ m key, <[DstName key := v]> m) ∅ keys =
    gset_to_gmap v (list_to_set (DstName <$> keys)).
Proof.
  apply map_eq. intros d. rewrite copied_lookup, lookup_gset_to_gmap.
  rewrite lookup_empty.
  destruct (decide (d ∈ DstName <$> keys)) as [Hin|Hin].
  - rewrite option_guard_True; [done | by apply elem_of_list_to_set].
  - rewrite option_guard_False; [done | by rewrite elem_of_list_to_set].
Qed.

(** *** What [getSecret] does once the secret was fetched *)

Lemma getSecret_run secret log :
  authorized →
  run (getSecret secret) log =
    let log' := log ++ [keyvault.GetSecretRequest (baseURL secret) (objectName secret) ""] in
    match keyvault.GetSecret vault (baseURL secret) (objectName secret) "" with
    | (_, Some err) => (Return (Some ∅, Some err), log')
    | (secretBundle, None) =>
        match copyLoop (keyvault.Value secretBundle) (Keys (OutputSecret (Spec secret))) ∅ with
        | Return m => (Return (Some m, None), log')
        | Panic p => (Panic p, log')
        end
    end.
Proof.
  intros Hauth. unfold getSecret, getClient. rewrite Hauth.
  unfold callGetSecret, baseURL, objectName, copyLoop. simpl.
  destruct (keyvault.GetSecret vault _ _ _) as [secretBundle [err|]]; simpl; [done|].
  by destruct (foldl _ _ _).
Qed.

(** *** What [getCertificate] does up to the inspection of the secret *)

Lemma GetSecret_certificate secret :
  objectType secret = AzureKeyVaultObjectTypeCertificate →
  GetSecret secret = getCertificate secret.
Proof. unfold GetSecret, objectType. intros ->. by rewrite decide_True. Qed.

Lemma GetSecret_plain secret :
  objectType secret ≠ AzureKeyVaultObjectTypeCertificate →
  GetSecret secret = getSecret secret.
Proof. unfold GetSecret, objectType. intros H. by rewrite decide_False. Qed.

(** C3. A certificate whose policy was fetched and says not exportable:
    the retrieval returns the not-exportable error (with the nil map),
    and the only request it has made is the one for the certificate; no
    secret is requested. *)
Theorem GetSecret_not_exportable secret log :
  objectType secret = AzureKeyVaultObjectTypeCertificate →
  authorized →
  fetchedPolicy secret false →
  run (GetSecret secret) log =
    (Return (None, Some "unable to get certificate since it's not exportable"),
     log ++ [certificateRequest secret]).
Proof.
  intros Htype Hauth (certBundle & policy & keyProperties & Hget & Hp & Hk & He).
  rewrite GetSecret_certificate by done.
  unfold getCertificate, getClient. rewrite Hauth.
  unfold callGetCertificate, baseURL, objectName, objectVersion in *. simpl.
  rewrite Hget. simpl. rewrite Hp. simpl. rewrite Hk. simpl. rewrite He. done.
Qed.

(** C4 (code defect). The plain-secret path asks the vault for the
    object by its name and the empty version, whatever version the object
    reference names. *)
Theorem getSecret_requests_empty_version secret log :
  authorized →
  (run (getSecret secret) log).2 =
    log ++ [keyvault.GetSecretRequest (baseURL secret) (objectName secret) ""].
Proof.
  intros Hauth. rewrite getSecret_run by done. simpl.
  destruct (keyvault.GetSecret vault _ _ _) as [secretBundle [err|]]; [done|].
  by destruct (copyLoop _ _ _).
Qed.

Lemma getCertificate_inspects_content_type secret log secretBundle :
  authorized →
  fetchedPolicy secret true →
  fetchedSecret secret secretBundle →
  run (getCertificate secret) log =
    run (contentType ← lift (deref (keyvault.ContentType secretBundle));
         if decide (contentType = AzureKeyVaultCertificateTypePem) then
           value ← lift (deref (keyvault.Value secretBundle));
           m ← lift (extractPemCertificate value);
           mret (Some m, None)
         else if decide (contentType = AzureKeyVaultCertificateTypePfx) then
           value ← lift (deref (keyvault.Value secretBundle));
           '(m, err) ← lift (extractPfxCertificate ToPEM value);
           mret (Some m, err)
         else
           mret (Some ∅,
                 Some ("azure key vault secret with content-type '" +:+ contentType
                       +:+ "' not supported")))
        (log ++ [certificateRequest secret; secretRequest secret]).
Proof.
  intros Hauth (certBundle & policy & keyProperties & Hget & Hp & Hk & He) Hsec.
  unfold getCertificate, getClient. rewrite Hauth.
  unfold callGetCertificate, callGetSecret, fetchedSecret,
    baseURL, objectName, objectVersion in *. simpl.
  rewrite Hget. simpl. rewrite Hp. simpl. rewrite Hk. simpl. rewrite He. simpl.
  rewrite Hsec. simpl. rewrite <- app_assoc. done.
Qed.

(** X5. The content type is there and is neither of the two supported
    ones: the retrieval returns the empty mapping and an error that names
    the content type, after both requests. *)
Lemma getCertificate_unsupported_content_type secret log secretBundle contentType :
  authorized →
  fetchedPolicy secret true →
  fetchedSecret secret secretBundle →
  keyvault.ContentType secretBundle = Some contentType →
  contentType ≠ AzureKeyVaultCertificateTypePem →
  contentType ≠ AzureKeyVaultCertificateTypePfx →
  run (getCertificate secret) log =
    (Return (Some ∅,
             Some ("azure key vault secret with content-type '" +:+ contentType
                   +:+ "' not supported")),
     log ++ [certificateRequest secret; secretRequest secret]).
Proof.
  intros Hauth Hpol Hsec Hct Hpem Hpfx.
  rewrite (getCertificate_inspects_content_type _ _ _ Hauth Hpol Hsec).
  rewrite Hct. simpl. by rewrite !decide_False.
Qed.

(** C7 (code defect). A certificate whose companion secret was fetched
    and has no content type: the switch dereferences the nil content
    type and the retrieval panics; no error naming a content type is
    returned. *)
Theorem GetSecret_absent_content_type_panics secret log secretBundle :
  objectType secret = AzureKeyVaultObjectTypeCertificate →
  authorized →
  fetchedPolicy secret true →
  fetchedSecret secret secretBundle →
  keyvault.ContentType secretBundle = None →
  run (GetSecret secret) log =
    (Panic NilDereference, log ++ [certificateRequest secret; secretRequest secret]).
Proof.
  intros Htype Hauth Hpol Hsec Hct.
  rewrite GetSecret_certificate by done.
  rewrite (getCertificate_inspects_content_type _ _ _ Hauth Hpol Hsec).
  by rewrite Hct.
Qed.

(** *** The plain-secret path *)

Lemma getSecret_fetched secret log secretBundle value :
  authorized →
  fetchedPlain secret secretBundle →
  keyvault.Value secretBundle = Some value →
  run (getSecret secret) log =
    (Return (Some (gset_to_gmap (bytes_of_string value)
                                (list_to_set (destinations secret))), None),
     log ++ [plainRequest secret]).
Proof.
  intros Hauth Hget Hval. rewrite getSecret_run by done. simpl.
  rewrite Hget, Hval, copyLoop_Some. by rewrite copied_eq.
Qed.

(** C8. After a successful fetch, every destination name of the output
    keys holds the bytes of the fetched value, and the result is the same
    whatever was requested before, so a second call gives it again; with
    no output keys the result is the empty mapping and no error. *)
Theorem getSecret_copies_value secret secretBundle :
  authorized →
  fetchedPlain secret secretBundle →
  (Keys (OutputSecret (Spec secret)) = [] →
   ∀ log, (run (getSecret secret) log).1 = Return (Some ∅, None))
  ∧ (∀ value, keyvault.Value secretBundle = Some value →
     ∃ m : gmap string (list ascii),
       (∀ log, (run (getSecret secret) log).1 = Return (Some m, None))
       ∧ (∀ log, (run (getSecret secret) (run (getSecret secret) log).2).1
                 = (run (getSecret secret) log).1)
       ∧ ∀ key, key ∈ Keys (OutputSecret (Spec secret)) →
                m !! DstName key = Some (bytes_of_string value)).
Proof.
  intros Hauth Hget. split.
  - intros Hkeys log. rewrite getSecret_run by done. simpl.
    rewrite Hget, Hkeys. done.
  - intros value Hval.
    exists (gset_to_gmap (bytes_of_string value) (list_to_set (destinations secret))).
    split; [|split].
    + intros log. by rewrite (getSecret_fetched _ _ _ _ Hauth Hget Hval).
    + intros log. by rewrite !(getSecret_fetched _ _ _ _ Hauth Hget Hval).
    + intros key Hkey. rewrite lookup_gset_to_gmap, option_guard_True; [done|].
      apply elem_of_list_to_set. unfold destinations. by apply list_elem_of_fmap_2.
Qed.

(** C9. An object whose type is not certificate takes the plain path,
    and the content type of the fetched secret plays no part: whatever
    it is, the PEM and PKCS#12 types included, the result holds the bytes
    of the value as fetched under the destination names. *)
Theorem GetSecret_plain_ignores_content_type secret log value contentType :
  objectType secret ≠ AzureKeyVaultObjectTypeCertificate →
  authorized →
  fetchedPlain secret {| keyvault.Value := Some value;
                         keyvault.ContentType := contentType |} →
  run (GetSecret secret) log =
    (Return (Some (gset_to_gmap (bytes_of_string value)
                                (list_to_set (destinations secret))), None),
     log ++ [plainRequest secret]).
Proof.
  intros Htype Hauth Hget. rewrite GetSecret_plain by done.
  by apply (getSecret_fetched _ _ _ _ Hauth Hget).
Qed.

(** C10. After a successful fetch the result has one entry for each
    distinct destination name of the output keys, each holding the bytes
    of the fetched value, however often a name is repeated, and no error
    is returned. *)
Theorem getSecret_duplicate_destinations secret log secretBundle value :
  authorized →
  fetchedPlain secret secretBundle →
  keyvault.Value secretBundle = Some value →
  ∃ m : gmap string (list ascii),
    (run (getSecret secret) log).1 = Return (Some m, None)
    ∧ dom m = list_to_set (destinations secret)
    ∧ size m = length (remove_dups (destinations secret))
    ∧ NoDup (map_to_list m).*1
    ∧ ∀ d, d ∈ destinations secret → m !! d = Some (bytes_of_string value).
Proof.
  intros Hauth Hget Hval.
  exists (gset_to_gmap (bytes_of_string value) (list_to_set (destinations secret))).
  split; [|split; [|split; [|split]]].
  - by rewrite (getSecret_fetched _ _ _ _ Hauth Hget Hval).
  - apply dom_gset_to_gmap.
  - rewrite <- size_dom, dom_gset_to_gmap.
    rewrite <- (size_list_to_set (C:=gset string) (remove_dups (destinations secret)))
      by apply NoDup_remove_dups.
    f_equal. apply set_eq. intros d.
    by rewrite !elem_of_list_to_set, elem_of_remove_dups.
  - apply NoDup_fst_map_to_list.
  - intros d Hd. rewrite lookup_gset_to_gmap, option_guard_True; [done|].
    by apply elem_of_list_to_set.
Qed.

End Retriever.

(** ** Concrete retrievals *)

Lemma GetSecret_not_exportable_witness :
  run (GetSecret sampleToPEM sampleAuthorizer (sampleVault false pemBundle)
         (sampleRef "certificate" "" ["tls"])) [] =
    (Return (None, Some "unable to get certificate since it's not exportable"),
     [keyvault.GetCertificateRequest "https://demo.vault.azure.net" "web" ""]).
Proof.
  apply (GetSecret_not_exportable sampleToPEM sampleAuthorizer
           (sampleVault false pemBundle) (sampleRef "certificate" "" ["tls"]) []).
  - reflexivity.
  - reflexivity.
  - exists (sampleCertificateBundle false). eexists. eexists.
    repeat split; reflexivity.
Defined.

(** The reference names version 7f3c; the request names none. *)
Lemma getSecret_requests_empty_version_witness :
  (run (getSecret sampleAuthorizer (sampleVault true untypedBundle)
          (sampleRef "secret" "7f3c" ["password"])) []).2 =
    [keyvault.GetSecretRequest "https://demo.vault.azure.net" "web" ""].
Proof.
  apply (getSecret_requests_empty_version sampleAuthorizer
           (sampleVault true untypedBundle) (sampleRef "secret" "7f3c" ["password"]) []).
  reflexivity.
Defined.

Lemma GetSecret_absent_content_type_panics_witness :
  run (GetSecret sampleToPEM sampleAuthorizer (sampleVault true untypedBundle)
         (sampleRef "certificate" "" [])) [] =
    (Panic NilDereference,
     [keyvault.GetCertificateRequest "https://demo.vault.azure.net" "web" "";
      keyvault.GetSecretRequest "https://demo.vault.azure.net" "web" ""]).
Proof.
  apply (GetSecret_absent_content_type_panics sampleToPEM sampleAuthorizer
           (sampleVault true untypedBundle) (sampleRef "certificate" "" []) []
           untypedBundle).
  - reflexivity.
  - reflexivity.
  - exists (sampleCertificateBundle true). eexists. eexists.
    repeat split; reflexivity.
  - reflexivity.
  - reflexivity.
Defined.

Lemma getSecret_copies_value_witness :
  ∃ m : gmap string (list ascii),
    (run (getSecret sampleAuthorizer (sampleVault true untypedBundle)
            (sampleRef "secret" "" ["password"; "token"])) []).1 = Return (Some m, None)
    ∧ m !! "password" = Some (bytes_of_string "s3cr3t")
    ∧ m !! "token" = Some (bytes_of_string "s3cr3t").
Proof.
  destruct (getSecret_copies_value sampleAuthorizer (sampleVault true untypedBundle)
              (sampleRef "secret" "" ["password"; "token"]) untypedBundle)
    as [_ H].
  - reflexivity.
  - reflexivity.
  - destruct (H "s3cr3t") as (m & Hrun & _ & Hkeys); [reflexivity|].
    exists m. split; [apply Hrun | split].
    + apply (Hkeys {| DstName := "password" |}). simpl. apply elem_of_cons. by left.
    + apply (Hkeys {| DstName := "token" |}). simpl.
      apply elem_of_cons. right. apply elem_of_cons. by left.
Defined.

(** A secret of type key whose value is PEM text and whose content type
    says so comes back as it was fetched. *)
Lemma GetSecret_plain_ignores_content_type_witness :
  run (GetSecret sampleToPEM sampleAuthorizer (sampleVault true pemBundle)
         (sampleRef "key" "" ["raw"])) [] =
    (Return (Some {[ "raw" := bytes_of_string (sampleKeyPem +:+ sampleCertPem) ]}, None),
     [keyvault.GetSecretRequest "https://demo.vault.azure.net" "web" ""]).
Proof.
  rewrite (GetSecret_plain_ignores_content_type sampleToPEM sampleAuthorizer
             (sampleVault true pemBundle) (sampleRef "key" "" ["raw"]) []
             (sampleKeyPem +:+ sampleCertPem) (Some AzureKeyVaultCertificateTypePem)).
  - reflexivity.
  - discriminate.
  - reflexivity.
  - reflexivity.
Defined.

Lemma getSecret_duplicate_destinations_witness :
  ∃ m : gmap string (list ascii),
    (run (getSecret sampleAuthorizer (sampleVault true untypedBundle)
            (sampleRef "secret" "" ["a"; "b"; "a"])) []).1 = Return (Some m, None)
    ∧ dom m = {[ "a"; "b" ]}
    ∧ size m = 2.
Proof.
  destruct (getSecret_duplicate_destinations sampleAuthorizer
              (sampleVault true untypedBundle) (sampleRef "secret" "" ["a"; "b"; "a"])
              [] untypedBundle "s3cr3t")
    as (m & Hrun & Hdom & Hsize & _ & _).
  - reflexivity.
  - reflexivity.
  - reflexivity.
  - exists m. split; [apply Hrun | split].
    + rewrite Hdom. reflexivity.
    + rewrite Hsize. reflexivity.
Defined.

(** ** Further properties of the retriever *)

Section RetrieverPaths.

Variable ToPEM : list ascii → string → list pem.Block * option error.
Variable NewAuthorizerFromEnvironmentWithResource : string → option error.
Variable vault : keyvault.BaseClient.

Local Abbreviation getSecret :=
  (getSecret NewAuthorizerFromEnvironmentWithResource vault).
Local Abbreviation getCertificate :=
  (getCertificate ToPEM NewAuthorizerFromEnvironmentWithResource vault).
Local Abbreviation GetSecret :=
  (GetSecret ToPEM NewAuthorizerFromEnvironmentWithResource vault).
Local Abbreviation authorized := (authorized NewAuthorizerFromEnvironmentWithResource).
Local Abbreviation fetchedPolicy := (fetchedPolicy vault).
Local Abbreviation fetchedSecret := (fetchedSecret vault).
Local Abbreviation fetchedPlain := (fetchedPlain vault).

(** X1. Without an authorizer no request is made, whatever the type of the
    object: the retrieval returns the empty mapping (not the nil one) and
    the authorizer's error as it came, not wrapped. *)
Theorem GetSecret_unauthorized secret log err :
  NewAuthorizerFromEnvironmentWithResource "https://vault.azure.net" = Some err →
  run (GetSecret secret) log = (Return (Some ∅, Some err), log).
Proof.
  intros Hauth. unfold GetSecret. case_decide.
  - unfold getCertificate, getClient. by rewrite Hauth.
  - unfold getSecret, getClient. by rewrite Hauth.
Qed.

(** X2. When the vault fails to give the secret, the plain path returns
    the empty mapping and the vault's error as it came, after its one
    request. *)
Theorem getSecret_fetch_failure secret log secretBundle err :
  authorized →
  keyvault.GetSecret vault (baseURL secret) (objectName secret) "" = (secretBundle, Some err) →
  run (getSecret secret) log = (Return (Some ∅, Some err), log ++ [plainRequest secret]).
Proof.
  intros Hauth Hget. rewrite getSecret_run by done. simpl. by rewrite Hget.
Qed.

(** X3. When the vault fails to give the certificate, the certificate path
    stops there: the error is wrapped in the certificate message, the
    mapping is empty, and no secret is requested. *)
Theorem getCertificate_fetch_failure secret log certBundle err :
  authorized →
  keyvault.GetCertificate vault (baseURL secret) (objectName secret) (objectVersion secret)
    = (certBundle, Some err) →
  run (getCertificate secret) log =
    (Return (Some ∅,
             Some ("failed to get certificate from azure key vault, error: " +:+ err)),
     log ++ [certificateRequest secret]).
Proof.
  intros Hauth Hget. unfold getCertificate, getClient. rewrite Hauth.
  unfold callGetCertificate, baseURL, objectName, objectVersion in *. simpl.
  by rewrite Hget.
Qed.

(** What [getCertificate] does once the policy was fetched and allows the
    export: it requests the secret. *)
Lemma getCertificate_exportable secret log :
  authorized →
  fetchedPolicy secret true →
  run (getCertificate secret) log =
    let log' := log ++ [certificateRequest secret; secretRequest secret] in
    match keyvault.GetSecret vault (baseURL secret) (objectName secret)
                             (objectVersion secret) with
    | (_, Some err) =>
        (Return (Some ∅, Some ("failed to get secret from azure key vault, error: " +:+ err)),
         log')
    | (secretBundle, None) =>
        run (contentType ← lift (deref (keyvault.ContentType secretBundle));
             if decide (contentType = AzureKeyVaultCertificateTypePem) then
               value ← lift (deref (keyvault.Value secretBundle));
               m ← lift (extractPemCertificate value);
               mret (Some m, None)
             else if decide (contentType = AzureKeyVaultCertificateTypePfx) then
               value ← lift (deref (keyvault.Value secretBundle));
               '(m, err) ← lift (extractPfxCertificate ToPEM value);
               mret (Some m, err)
             else
               mret (Some ∅,
                     Some ("azure key vault secret with content-type '" +:+ contentType
                           +:+ "' not supported")))
            log'
    end.
Proof.
  intros Hauth (certBundle & policy & keyProperties & Hget & Hp & Hk & He).
  unfold getCertificate, getClient. rewrite Hauth.
  unfold callGetCertificate, callGetSecret, baseURL, objectName, objectVersion in *.
  simpl. rewrite Hget. simpl. rewrite Hp. simpl. rewrite Hk. simpl. rewrite He. simpl.
  destruct (keyvault.GetSecret vault _ _ _) as [secretBundle [err|]]; simpl;
    by rewrite <- app_assoc.
Qed.

(** The steps after the secret's request make no request. *)
Lemma lift_log {A} (m : go A) log : (run (lift m) log).2 = log.
Proof. done. Qed.

(** X4. When the policy allows the export and the vault fails to give the
    companion secret, the error is wrapped in the secret message and the
    mapping is empty; both requests were made. *)
Theorem getCertificate_secret_fetch_failure secret log secretBundle err :
  authorized →
  fetchedPolicy secret true →
  keyvault.GetSecret vault (baseURL secret) (objectName secret) (objectVersion secret)
    = (secretBundle, Some err) →
  run (getCertificate secret) log =
    (Return (Some ∅, Some ("failed to get secret from azure key vault, error: " +:+ err)),
     log ++ [certificateRequest secret; secretRequest secret]).
Proof.
  intros Hauth Hpol Hget. rewrite getCertificate_exportable by done. simpl.
  by rewrite Hget.
Qed.

(** X6. A certificate whose policy allows the export costs two requests,
    however the retrieval ends: first the certificate, then the secret,
    both by the name and the version of the object reference. *)
Theorem getCertificate_requests secret log :
  authorized →
  fetchedPolicy secret true →
  (run (getCertificate secret) log).2 =
    log ++ [keyvault.GetCertificateRequest (baseURL secret) (objectName secret)
                                           (objectVersion secret);
            keyvault.GetSecretRequest (baseURL secret) (objectName secret)
                                      (objectVersion secret)].
Proof.
  intros Hauth Hpol. rewrite getCertificate_exportable by done. simpl.
  destruct (keyvault.GetSecret vault _ _ _) as [secretBundle [err|]]; [done|].
  destruct (keyvault.ContentType secretBundle) as [contentType|]; [|done]. simpl.
  repeat case_decide.
  - destruct (keyvault.Value secretBundle) as [value|]; [|done]. simpl.
    by destruct (extractPemCertificate value).
  - destruct (keyvault.Value secretBundle) as [value|]; [|done]. simpl.
    by destruct (extractPfxCertificate ToPEM value) as [[m e]|].
  - done.
Qed.

(** X8. A certificate bundle that comes without its policy, without the
    policy's key properties or without their exportable flag is
    dereferenced all the same: the retrieval panics after the certificate's
    request, before any secret is requested. *)
Theorem getCertificate_missing_policy_panics secret log certBundle :
  authorized →
  keyvault.GetCertificate vault (baseURL secret) (objectName secret) (objectVersion secret)
    = (certBundle, None) →
  (keyvault.Policy certBundle = None
   ∨ ∃ policy, keyvault.Policy certBundle = Some policy
       ∧ (keyvault.KeyProperties policy = None
          ∨ ∃ keyProperties, keyvault.KeyProperties policy = Some keyProperties
              ∧ keyvault.Exportable keyProperties = None)) →
  run (getCertificate secret) log =
    (Panic NilDereference, log ++ [certificateRequest secret]).
Proof.
  intros Hauth Hget Hnil. unfold getCertificate, getClient. rewrite Hauth.
  unfold callGetCertificate, baseURL, objectName, objectVersion in *. simpl.
  rewrite Hget. simpl.
  destruct Hnil as [Hp | (policy & Hp & Hnil)]; rewrite Hp; [done|]. simpl.
  destruct Hnil as [Hk | (keyProperties & Hk & He)]; rewrite Hk; [done|]. simpl.
  by rewrite He.
Qed.

Lemma copyLoop_None key keys m0 :
  copyLoop None (key :: keys) m0 = Panic NilDereference.
Proof.
  unfold copyLoop. simpl. induction keys as [|k keys IH]; [done|]. apply IH.
Qed.

(** X9. A secret that was fetched without a value: with at least one
    output key the plain path dereferences the nil value and panics. *)
Theorem getSecret_nil_value_panics secret log secretBundle :
  authorized →
  fetchedPlain secret secretBundle →
  keyvault.Value secretBundle = None →
  Keys (OutputSecret (Spec secret)) ≠ [] →
  run (getSecret secret) log = (Panic NilDereference, log ++ [plainRequest secret]).
Proof.
  intros Hauth Hget Hval Hkeys. rewrite getSecret_run by done. simpl.
  rewrite Hget, Hval.
  destruct (Keys (OutputSecret (Spec secret))) as [|key keys]; [done|].
  by rewrite copyLoop_None.
Qed.

(** X10. For an object whose type is not certificate the retrieval makes
    at most one request, the one for the secret with the empty version,
    and never asks for a certificate, whether the authorizer, the vault or
    the copying fails or not. *)
Theorem GetSecret_plain_requests secret log :
  objectType secret ≠ AzureKeyVaultObjectTypeCertificate →
  (run (GetSecret secret) log).2 = log
  ∨ (run (GetSecret secret) log).2 = log ++ [plainRequest secret].
Proof.
  intros Htype. rewrite GetSecret_plain by done.
  destruct (NewAuthorizerFromEnvironmentWithResource "https://vault.azure.net")
    as [err|] eqn:Hauth.
  - left. unfold getSecret, getClient. by rewrite Hauth.
  - right. rewrite getSecret_run by done. simpl.
    destruct (keyvault.GetSecret vault _ _ _) as [secretBundle [err|]]; [done|].
    by destruct (copyLoop _ _ _).
Qed.

(** X7. A certificate that may be exported and whose secret is PEM text
    with a block and a second one after it: the retrieval returns the first
    block encoded under tls.key and the second under tls.crt, no error,
    after the two requests. *)
Theorem getCertificate_pem secret log secretBundle value privateDer rest publicDer rest' :
  authorized →
  fetchedPolicy secret true →
  fetchedSecret secret secretBundle →
  keyvault.ContentType secretBundle = Some AzureKeyVaultCertificateTypePem →
  keyvault.Value secretBundle = Some value →
  pem.Decode (bytes_of_string value) = Return (Some privateDer, rest) →
  pem.Decode rest = Return (Some publicDer, rest') →
  ∃ key crt,
    pem.Encode privateDer = inl key
    ∧ pem.Encode publicDer = inl crt
    ∧ run (getCertificate secret) log =
        (Return (Some (<["tls.key" := key]> (<["tls.crt" := crt]> ∅)), None),
         log ++ [certificateRequest secret; secretRequest secret]).
Proof.
  intros Hauth Hpol Hsec Hct Hval H1 H2.
  destruct (Decode_encodes _ _ _ H1) as [key Hkey].
  destruct (Decode_encodes _ _ _ H2) as [crt Hcrt].
  exists key, crt. split; [done|]. split; [done|].
  rewrite getCertificate_exportable by done. simpl.
  rewrite Hsec, Hct. simpl. rewrite Hval. simpl.
  unfold extractPemCertificate. rewrite H1. simpl. rewrite H2. simpl.
  unfold pem.EncodeToMemory. simpl. by rewrite Hkey, Hcrt.
Qed.

(** X12. A certificate that may be exported and whose secret is PKCS#12,
    as base64 text of at least one byte: the retrieval panics on the write
    into the empty decode buffer, after the two requests. *)
Theorem getCertificate_pkcs12_panics secret log secretBundle value :
  authorized →
  fetchedPolicy secret true →
  fetchedSecret secret secretBundle →
  keyvault.ContentType secretBundle = Some AzureKeyVaultCertificateTypePfx →
  keyvault.Value secretBundle = Some value →
  isRawURLText value = true →
  ∃ i, run (getCertificate secret) log =
         (Panic (IndexOutOfRange i 0),
          log ++ [certificateRequest secret; secretRequest secret]).
Proof.
  intros Hauth Hpol Hsec Hct Hval Htext.
  destruct (Decode_alphabet_panics value Htext) as [i Hi]. exists i.
  rewrite getCertificate_exportable by done. simpl.
  rewrite Hsec, Hct. simpl. rewrite Hval. simpl.
  unfold extractPfxCertificate. simpl replicate. by rewrite Hi.
Qed.

End RetrieverPaths.

(** ** Further properties of the two decoders *)

Section Decoders.

Variable ToPEM : list ascii → string → list pem.Block * option error.

Lemma HasPrefix_app (prefix s : list ascii) : bytes.HasPrefix (prefix ++ s) prefix = true.
Proof.
  induction prefix as [|c prefix IH]; simpl; [by destruct s|].
  by rewrite Ascii.eqb_refl, IH.
Qed.

Lemma Encode_begins b out :
  pem.Encode b = inl out → bytes.HasPrefix out (bytes_of_string "-----BEGIN ") = true.
Proof.
  unfold pem.Encode. destruct (existsb _ _); [done|]. intros [= <-].
  exact (HasPrefix_app (bytes_of_string "-----BEGIN ") _).
Qed.

(** X11. Whenever the PEM path returns, the mapping holds exactly the two
    entries tls.key and tls.crt and each value is a PEM text, beginning
    with the BEGIN marker: no value is ever empty, and no error is ever
    returned. *)
Theorem extractPemCertificate_values_framed (pemCert : string) m :
  extractPemCertificate pemCert = Return m →
  ∃ key crt,
    m = <["tls.key" := key]> (<["tls.crt" := crt]> ∅)
    ∧ bytes.HasPrefix key (bytes_of_string "-----BEGIN ") = true
    ∧ bytes.HasPrefix crt (bytes_of_string "-----BEGIN ") = true.
Proof.
  destruct (Decode_returns (bytes_of_string pemCert)) as (privateDer & rest & H1).
  destruct (Decode_returns rest) as (publicDer & rest' & H2).
  unfold extractPemCertificate. rewrite H1. simpl. rewrite H2. simpl.
  destruct publicDer as [publicDer|]; [|done].
  destruct privateDer as [privateDer|]; [|by rewrite EncodeToMemory_Some].
  destruct (Decode_encodes _ _ _ H1) as [key Hkey].
  destruct (Decode_encodes _ _ _ H2) as [crt Hcrt].
  rewrite !EncodeToMemory_Some. unfold encoded. rewrite Hkey, Hcrt. simpl.
  intros [= <-]. exists key, crt. split; [done|].
  split; eapply Encode_begins; eauto.
Qed.

(** X13. An input whose first byte is neither of the base64 alphabet nor a
    line end is refused: the empty mapping, and the decode error that
    names byte 0. *)
Theorem extractPfxCertificate_illegal_first_byte (c : ascii) (rest : string) :
  base64.decodeMap base64.RawURLEncoding c = 255%N →
  base64.is_newline c = false →
  extractPfxCertificate ToPEM (String c rest) =
    Return (∅, Some ("failed to decode base64 encoded pfx certificate, error: "
                     +:+ "illegal base64 data at input byte 0")).
Proof.
  intros Hc Hnl. unfold extractPfxCertificate, base64.Decode. simpl replicate.
  change (bytes_of_string (String c rest)) with (c :: bytes_of_string rest).
  rewrite decide_False by done. cbn [length base64.decodeLoop].
  rewrite decide_True by (simpl; lia).
  unfold base64.decodeQuantum. rewrite drop_0. cbn [base64.scan].
  rewrite Hc, Hnl. done.
Qed.

Lemma newline_not_alphabet c :
  base64.is_newline c = true → base64.decodeMap base64.RawURLEncoding c = 255%N.
Proof.
  unfold base64.is_newline. intros [H|H]%orb_prop; apply Ascii.eqb_eq in H as ->; done.
Qed.

Lemma scan_newlines rest si dbuf :
  forallb base64.is_newline rest = true →
  base64.scan base64.RawURLEncoding rest si 0 dbuf = base64.Returned (si + length rest) 0 None.
Proof.
  revert si. induction rest as [|c rest IH]; intros si; simpl.
  - intros _. by rewrite Nat.add_0_r.
  - intros [Hc Hrest]%andb_prop. rewrite (newline_not_alphabet c Hc), Hc. simpl.
    rewrite IH by done. f_equal. lia.
Qed.

Lemma Decode_newlines (s : list ascii) :
  forallb base64.is_newline s = true →
  base64.Decode base64.RawURLEncoding [] s = Return ([], (0, None)).
Proof.
  intros Hs. unfold base64.Decode. case_decide; [done|].
  destruct (length s) as [|k] eqn:E; [done|].
  cbn [base64.decodeLoop]. rewrite E. rewrite decide_True by lia.
  unfold base64.decodeQuantum. rewrite drop_0, scan_newlines by done. simpl.
  rewrite E. destruct k; simpl; by rewrite decide_False by lia.
Qed.

(** The loop over the entries of the archive. *)
Lemma merge_loop (pemList : list pem.Block) (buf : string) :
  foldl (λ acc pemCert,
           buf ← acc;
           enc ← pem.EncodeToMemory (Some pemCert);
           Return (buf +:+ string_of_bytes enc))
        (Return buf) pemList
  = Return (foldl (λ buf pemCert, buf +:+ string_of_bytes (encoded pemCert)) buf pemList).
Proof.
  revert buf. induction pemList as [|b pemList IH]; intros buf; [done|].
  simpl. rewrite EncodeToMemory_Some. simpl. apply IH.
Qed.

(** What the PKCS#12 path does once the base64 decoding has returned
    without an error: it parses the empty blob. *)
Lemma extractPfxCertificate_decoded (pfx : string) dst n :
  base64.Decode base64.RawURLEncoding [] (bytes_of_string pfx) = Return (dst, (n, None)) →
  extractPfxCertificate ToPEM pfx =
    match ToPEM [] "" with
    | (_, Some err) =>
        Return (∅, Some ("failed to convert pfx certificate to pem, error: " +:+ err))
    | (pemList, None) =>
        m ← extractPemCertificate (mergePems pemList); Return (m, None)
    end.
Proof.
  intros H. unfold extractPfxCertificate. simpl replicate. rewrite H.
  apply Decode_empty in H as [-> _]. simpl.
  destruct (ToPEM [] "") as [pemList [err|]]; [done|].
  by rewrite merge_loop.
Qed.

(** X14. An input of line ends only, the empty input included, decodes to
    nothing without an error, and the parser is run on the empty blob: when
    it rejects it, the result is the empty mapping and the parser's error,
    wrapped in the conversion message, not the decode message. *)
Theorem extractPfxCertificate_blank_input (pfx : string) pemList err :
  forallb base64.is_newline (bytes_of_string pfx) = true →
  ToPEM [] "" = (pemList, Some err) →
  extractPfxCertificate ToPEM pfx =
    Return (∅, Some ("failed to convert pfx certificate to pem, error: " +:+ err)).
Proof.
  intros Hpfx Hparse.
  rewrite (extractPfxCertificate_decoded pfx [] 0) by by apply Decode_newlines.
  by rewrite Hparse.
Qed.

(** X15. Whenever the PKCS#12 path returns a mapping and no error, the
    parser has accepted the empty blob, and the mapping is what the PEM
    path makes of the encodings of the entries it found there, one after
    the other in the parser's order. *)
Theorem extractPfxCertificate_success (pfx : string) m :
  extractPfxCertificate ToPEM pfx = Return (m, None) →
  ∃ pemList,
    ToPEM [] "" = (pemList, None)
    ∧ extractPemCertificate (mergePems pemList) = Return m.
Proof.
  intros H.
  destruct (base64.Decode base64.RawURLEncoding [] (bytes_of_string pfx))
    as [[dst [n err]]|p] eqn:E.
  - destruct err as [e|].
    + unfold extractPfxCertificate in H. simpl replicate in H. by rewrite E in H.
    + rewrite (extractPfxCertificate_decoded pfx dst n E) in H.
      destruct (ToPEM [] "") as [pemList [e|]]; [done|].
      exists pemList. split; [done|].
      by destruct (extractPemCertificate (mergePems pemList)); simplify_eq/=.
  - unfold extractPfxCertificate in H. simpl replicate in H. by rewrite E in H.
Qed.

(** X16. When the parser rejects the empty blob, the PKCS#12 path returns
    no material for any input: whenever it returns, the mapping is empty
    and an error comes with it. *)
Theorem extractPfxCertificate_never_succeeds (pfx : string) pemList err r :
  ToPEM [] "" = (pemList, Some err) →
  extractPfxCertificate ToPEM pfx = Return r →
  ∃ e, r = (∅, Some e).
Proof.
  intros Hparse H.
  destruct (base64.Decode base64.RawURLEncoding [] (bytes_of_string pfx))
    as [[dst [n [e|]]]|p] eqn:E.
  - unfold extractPfxCertificate in H. simpl replicate in H. rewrite E in H.
    simpl in H. injection H as <-. by eexists.
  - rewrite (extractPfxCertificate_decoded pfx dst n E), Hparse in H.
    injection H as <-. by eexists.
  - unfold extractPfxCertificate in H. simpl replicate in H. by rewrite E in H.
Qed.

End Decoders.

(** ** Encoding to PEM and decoding again *)

Section Sextets.
Import base64.

Local Ltac euclid := zify; Z.to_euclidean_division_equations; lia.

Lemma decodeMap_encodeChar v :
  decodeMap StdEncoding (encodeChar StdEncoding v) = N.land v 63.
Proof.
  unfold encodeChar.
  assert (N.land v 63 < 64)%N as H.
  { change 63%N with (N.ones 6). rewrite N.land_ones. by apply N.mod_lt. }
  rewrite <- (N2Nat.id (N.land v 63)) at 2.
  assert (N.to_nat (N.land v 63) < 64) as Hn by lia.
  revert Hn. generalize (N.to_nat (N.land v 63)). clear. intros n Hn.
  do 64 (destruct n as [|n]; [reflexivity|]). lia.
Qed.

Lemma sextet_lt v : (N.land v 63 < 64)%N.
Proof. change 63%N with (N.ones 6). rewrite N.land_ones. by apply N.mod_lt. Qed.

Lemma N_of_ascii_lt a : (N_of_ascii a < 256)%N.
Proof. destruct a as [[] [] [] [] [] [] [] []]; reflexivity. Qed.

Lemma lor_add x b k :
  (x mod 2 ^ k = 0)%N → (b < 2 ^ k)%N → N.lor x b = (x + b)%N.
Proof.
  intros Hx Hb.
  assert (N.land x b = 0%N) as H0.
  { apply N.bits_inj. intros n. rewrite N.land_spec, N.bits_0.
    destruct (N.lt_ge_cases n k) as [Hn|Hn].
    - rewrite (N.div_mod x (2 ^ k)), Hx, N.add_0_r, N.mul_comm
        by (apply N.pow_nonzero; lia).
      by rewrite N.mul_pow2_bits_low.
    - destruct (N.eq_dec b 0%N) as [->|Hb0]; [by rewrite N.bits_0, andb_false_r|].
      rewrite (N.bits_above_log2 b n); [apply andb_false_r|].
      apply N.log2_lt_pow2 in Hb; lia. }
  by rewrite (N.add_nocarry_lxor _ _ H0), (N.lxor_lor _ _ H0).
Qed.

(** The number that [decodeQuantum] assembles from four sextets. *)
Lemma sextets_value d0 d1 d2 d3 :
  (d0 < 64 → d1 < 64 → d2 < 64 → d3 < 64 →
   N.lor (N.lor (N.lor (N.shiftl d0 18) (N.shiftl d1 12)) (N.shiftl d2 6)) d3
   = d0 * 262144 + d1 * 4096 + d2 * 64 + d3)%N.
Proof.
  intros H0 H1 H2 H3. rewrite !N.shiftl_mul_pow2.
  change (2 ^ 18)%N with 262144%N. change (2 ^ 12)%N with 4096%N.
  change (2 ^ 6)%N with 64%N.
  rewrite (lor_add (d0 * 262144) (d1 * 4096) 18);
    [| change (2 ^ 18)%N with 262144%N; euclid | change (2 ^ 18)%N with 262144%N; lia].
  rewrite (lor_add _ (d2 * 64) 12);
    [| change (2 ^ 12)%N with 4096%N; euclid | change (2 ^ 12)%N with 4096%N; lia].
  rewrite (lor_add _ d3 6);
    [| change (2 ^ 6)%N with 64%N; euclid | change (2 ^ 6)%N with 64%N; lia].
  done.
Qed.

(** The number that [Encode] assembles from three bytes. *)
Lemma bytes_value (a b c : N) :
  (a < 256 → b < 256 → c < 256 →
   N.lor (N.lor (N.shiftl a 16) (N.shiftl b 8)) c = a * 65536 + b * 256 + c)%N.
Proof.
  intros Ha Hb Hc. rewrite !N.shiftl_mul_pow2.
  change (2 ^ 16)%N with 65536%N. change (2 ^ 8)%N with 256%N.
  rewrite (lor_add (a * 65536) (b * 256) 16);
    [| change (2 ^ 16)%N with 65536%N; euclid | change (2 ^ 16)%N with 65536%N; lia].
  rewrite (lor_add _ c 8);
    [| change (2 ^ 8)%N with 256%N; euclid | change (2 ^ 8)%N with 256%N; lia].
  done.
Qed.

Lemma sextet_div v k : N.land (N.shiftr v k) 63 = ((v / 2 ^ k) mod 64)%N.
Proof. rewrite N.shiftr_div_pow2. change 63%N with (N.ones 6). by rewrite N.land_ones. Qed.

Lemma byte_of_N_ascii (n : N) (a : ascii) : (n mod 256 = N_of_ascii a)%N → byte_of_N n = a.
Proof. unfold byte_of_N. intros ->. apply ascii_N_embedding. Qed.

(** Three bytes, written as four sextets and assembled again. *)
Lemma group3 (s0 s1 s2 : ascii) :
  let val := N.lor (N.lor (N.shiftl (N_of_ascii s0) 16) (N.shiftl (N_of_ascii s1) 8))
                   (N_of_ascii s2) in
  let val' := N.lor (N.lor (N.lor (N.shiftl (N.land (N.shiftr val 18) 63) 18)
                                  (N.shiftl (N.land (N.shiftr val 12) 63) 12))
                           (N.shiftl (N.land (N.shiftr val 6) 63) 6))
                    (N.land val 63) in
  byte_of_N (N.shiftr val' 16) = s0 ∧ byte_of_N (N.shiftr val' 8) = s1
  ∧ byte_of_N (N.shiftr val' 0) = s2.
Proof.
  intros val val'. unfold val'. rewrite sextets_value by apply sextet_lt.
  rewrite !sextet_div. change 63%N with (N.ones 6). rewrite N.land_ones.
  unfold val. pose proof (N_of_ascii_lt s0). pose proof (N_of_ascii_lt s1).
  pose proof (N_of_ascii_lt s2). rewrite bytes_value by done.
  rewrite !N.shiftr_div_pow2.
  change (2 ^ 18)%N with 262144%N. change (2 ^ 16)%N with 65536%N.
  change (2 ^ 12)%N with 4096%N. change (2 ^ 8)%N with 256%N.
  change (2 ^ 6)%N with 64%N. change (2 ^ 0)%N with 1%N.
  repeat split; apply byte_of_N_ascii; euclid.
Qed.

(** Two bytes, written as three sextets. *)
Lemma group2 (s0 s1 : ascii) :
  let val := N.lor (N.shiftl (N_of_ascii s0) 16) (N.shiftl (N_of_ascii s1) 8) in
  let val' := N.lor (N.lor (N.lor (N.shiftl (N.land (N.shiftr val 18) 63) 18)
                                  (N.shiftl (N.land (N.shiftr val 12) 63) 12))
                           (N.shiftl (N.land (N.shiftr val 6) 63) 6))
                    0 in
  byte_of_N (N.shiftr val' 16) = s0 ∧ byte_of_N (N.shiftr val' 8) = s1.
Proof.
  intros val val'. unfold val'. rewrite sextets_value by (apply sextet_lt || done).
  rewrite !sextet_div.
  unfold val. pose proof (N_of_ascii_lt s0). pose proof (N_of_ascii_lt s1).
  rewrite <- (N.lor_0_r (N.lor _ _)), bytes_value by done.
  rewrite !N.shiftr_div_pow2.
  change (2 ^ 18)%N with 262144%N. change (2 ^ 16)%N with 65536%N.
  change (2 ^ 12)%N with 4096%N. change (2 ^ 8)%N with 256%N.
  change (2 ^ 6)%N with 64%N.
  repeat split; apply byte_of_N_ascii; euclid.
Qed.

(** One byte, written as two sextets. *)
Lemma group1 (s0 : ascii) :
  let val := N.shiftl (N_of_ascii s0) 16 in
  let val' := N.lor (N.lor (N.lor (N.shiftl (N.land (N.shiftr val 18) 63) 18)
                                  (N.shiftl (N.land (N.shiftr val 12) 63) 12))
                           (N.shiftl 0 6))
                    0 in
  byte_of_N (N.shiftr val' 16) = s0.
Proof.
  intros val val'. unfold val'. rewrite sextets_value by (apply sextet_lt || done).
  rewrite !sextet_div.
  unfold val. pose proof (N_of_ascii_lt s0).
  rewrite !N.shiftr_div_pow2, N.shiftl_mul_pow2.
  change (2 ^ 18)%N with 262144%N. change (2 ^ 16)%N with 65536%N.
  change (2 ^ 12)%N with 4096%N.
  apply byte_of_N_ascii; euclid.
Qed.

End Sextets.

Section Scanning.
Import base64.

Lemma std_newline c : is_newline c = true → decodeMap StdEncoding c = 255%N.
Proof.
  unfold is_newline. intros [H|H]%orb_prop; apply Ascii.eqb_eq in H as ->; done.
Qed.

Lemma std_alphabet c :
  decodeMap StdEncoding c ≠ 255%N → is_newline c = false ∧ c ≠ "="%char.
Proof.
  intros H. split.
  - destruct (is_newline c) eqn:E; [|done]. by apply std_newline in E.
  - by intros ->.
Qed.

Lemma clean_cons_newline c t : is_newline c = true → clean (c :: t) = clean t.
Proof. intros H. unfold clean. rewrite filter_cons_False; [done | by rewrite H]. Qed.

Lemma clean_cons c t : is_newline c = false → clean (c :: t) = c :: clean t.
Proof. intros H. unfold clean. by rewrite filter_cons_True. Qed.

Lemma skip_newlines_nil t si :
  clean t = [] → skip_newlines t si = ([], si + length t).
Proof.
  revert si. induction t as [|c t IH]; intros si; simpl.
  - intros _. by rewrite Nat.add_0_r.
  - destruct (is_newline c) eqn:E.
    + rewrite clean_cons_newline by done. intros H. rewrite IH by done. f_equal. lia.
    + by rewrite clean_cons.
Qed.

Lemma skip_newlines_cons t si c more :
  clean t = c :: more →
  ∃ t' k, skip_newlines t si = (c :: t', si + k) ∧ clean t' = more
          ∧ k + S (length t') = length t.
Proof.
  revert si. induction t as [|a t IH]; intros si; [done|]. simpl.
  destruct (is_newline a) eqn:E.
  - rewrite clean_cons_newline by done. intros H.
    destruct (IH (S si) H) as (t' & k & -> & Hclean & Hlen).
    exists t', (S k). split; [f_equal; lia|]. split; [done | lia].
  - rewrite clean_cons by done. intros [= -> <-].
    exists t, 0. split; [f_equal; lia|]. split; [done | lia].
Qed.

(** The scanning loop over the characters of a full group: the line ends
    among them are passed over. *)
Lemma scan_group t si j dbuf cs more :
  j < 4 → j + length cs = 4 →
  Forall (λ c, decodeMap StdEncoding c ≠ 255%N) cs →
  clean t = cs ++ more →
  ∃ k, 0 < k ≤ length t ∧ clean (drop k t) = more
       ∧ scan StdEncoding t si j dbuf = Collected (si + k) 4 (fill j cs dbuf) None.
Proof.
  revert si j dbuf cs. induction t as [|c t IH]; intros si j dbuf cs Hj Hlen Hcs Hclean.
  - destruct cs; simpl in *; [lia | done].
  - cbn [scan]. destruct (is_newline c) eqn:E.
    + rewrite clean_cons_newline in Hclean by done.
      destruct (IH (S si) j dbuf cs Hj Hlen Hcs Hclean) as (k & Hk & Hdrop & Hscan).
      exists (S k). rewrite (std_newline c E). simpl. rewrite Hscan.
      split; [simpl; lia|]. split; [done|]. f_equal. lia.
    + rewrite clean_cons in Hclean by done.
      destruct cs as [|c' cs]; [simpl in Hlen; lia|].
      simpl in Hclean. injection Hclean as <- Hclean.
      apply Forall_cons in Hcs as [Hc Hcs].
      apply N.eqb_neq in Hc as Hc'. rewrite Hc'. simpl negb. cbv iota.
      case_decide as Hj'.
      * simpl in Hlen.
        destruct (IH (S si) (S j) (<[j:=decodeMap StdEncoding c]> dbuf) cs
                    Hj' ltac:(lia) Hcs Hclean) as (k & Hk & Hdrop & Hscan).
        exists (S k). rewrite Hscan. split; [simpl; lia|]. split; [done|].
        simpl. f_equal. lia.
      * exists 1. destruct cs; [|simpl in Hlen; lia].
        split; [simpl; lia|]. split; [done|]. simpl. f_equal. lia.
Qed.

(** The scanning loop over the characters of the last, padded group. *)
Lemma scan_padded t si j dbuf cs npad :
  (npad = 1 ∨ npad = 2) → j + length cs + npad = 4 →
  Forall (λ c, decodeMap StdEncoding c ≠ 255%N) cs →
  clean t = cs ++ replicate npad "="%char →
  scan StdEncoding t si j dbuf
  = Collected (si + length t) (4 - npad) (fill j cs dbuf) None.
Proof.
  revert si j dbuf cs. induction t as [|c t IH]; intros si j dbuf cs Hn Hlen Hcs Hclean.
  - destruct cs; [|done]. destruct Hn as [-> | ->]; done.
  - cbn [scan length]. destruct (is_newline c) eqn:E.
    + rewrite clean_cons_newline in Hclean by done.
      rewrite (std_newline c E). simpl.
      rewrite (IH (S si) j dbuf cs Hn Hlen Hcs Hclean). f_equal. lia.
    + rewrite clean_cons in Hclean by done.
      destruct cs as [|c' cs].
      * simpl in Hclean, Hlen. assert (c = "="%char) as ->.
        { destruct Hn as [-> | ->]; by injection Hclean. }
        simpl.
        destruct Hn as [-> | ->].
        -- assert (j = 3) as -> by lia. simpl in Hclean. injection Hclean as Hclean.
           rewrite (skip_newlines_nil t (S si) Hclean). simpl. f_equal. lia.
        -- assert (j = 2) as -> by lia. simpl in Hclean. injection Hclean as Hclean.
           destruct (skip_newlines_cons t (S si) _ _ Hclean)
             as (t' & k & -> & Hclean' & Hk).
           simpl. rewrite (skip_newlines_nil t' _ Hclean'). simpl. f_equal. lia.
      * simpl in Hclean. injection Hclean as <- Hclean.
        apply Forall_cons in Hcs as [Hc Hcs].
        apply N.eqb_neq in Hc as Hc'. rewrite Hc'. simpl negb. cbv iota.
        simpl in Hlen. rewrite decide_True by lia.
        rewrite (IH (S si) (S j) _ cs Hn ltac:(lia) Hcs Hclean). simpl. f_equal. lia.
Qed.

End Scanning.

Section Decoding.
Import base64.

Lemma list_ind3 {A} (P : list A → Prop) :
  P [] → (∀ a, P [a]) → (∀ a b, P [a; b]) →
  (∀ a b c l, P l → P (a :: b :: c :: l)) → ∀ l, P l.
Proof.
  intros H0 H1 H2 H3 l.
  assert (∀ n l, length l ≤ n → P l) as H; [|by apply (H (length l))].
  clear l. induction n as [|n IH]; intros l Hl.
  - destruct l; [done | simpl in Hl; lia].
  - destruct l as [|a [|b [|c l]]]; try done.
    apply H3, IH. simpl in Hl. lia.
Qed.

Lemma encodeChar_alphabet v : decodeMap StdEncoding (encodeChar StdEncoding v) ≠ 255%N.
Proof. rewrite decodeMap_encodeChar. pose proof (sextet_lt v). lia. Qed.

Lemma scan_blank t si dbuf :
  clean t = [] → scan StdEncoding t si 0 dbuf = Returned (si + length t) 0 None.
Proof.
  revert si. induction t as [|c t IH]; intros si; simpl.
  - intros _. by rewrite Nat.add_0_r.
  - destruct (is_newline c) eqn:E.
    + rewrite clean_cons_newline by done. intros H.
      rewrite (std_newline c E). simpl. rewrite IH by done. f_equal. lia.
    + by rewrite clean_cons.
Qed.

Lemma decodeLoop_end fuel enc dst n src si :
  length src ≤ si → decodeLoop fuel enc dst n src si = Return (dst, (n, None)).
Proof. intros H. destruct fuel; simpl; by rewrite decide_False by lia. Qed.

(** A quantum of four, three and two collected sextets, with room in the
    buffer. *)
Lemma decodeQuantum_4 dst n src si nsi d0 d1 d2 d3 :
  scan StdEncoding (drop si src) si 0 [0; 0; 0; 0]%N
    = Collected nsi 4 [d0; d1; d2; d3] None →
  n + 2 < length dst →
  let val := N.lor (N.lor (N.lor (N.shiftl d0 18) (N.shiftl d1 12)) (N.shiftl d2 6)) d3 in
  decodeQuantum StdEncoding dst n src si =
    Return (<[n + 0:=byte_of_N (N.shiftr val 16)]>
              (<[n + 1:=byte_of_N (N.shiftr val 8)]>
                 (<[n + 2:=byte_of_N (N.shiftr val 0)]> dst)),
            (nsi, 3, None)).
Proof.
  intros Hscan Hroom val. unfold decodeQuantum. rewrite Hscan. cbv zeta.
  cbn [lookup list_lookup default from_option strict StdEncoding andb].
  rewrite store_at_room by lia. cbn [mbind go_bind].
  rewrite store_at_room by (rewrite length_insert; lia). cbn [mbind go_bind].
  rewrite store_at_room by (rewrite !length_insert; lia). cbn [mbind go_bind].
  done.
Qed.

Lemma decodeQuantum_3 dst n src si nsi d0 d1 d2 d3 :
  scan StdEncoding (drop si src) si 0 [0; 0; 0; 0]%N
    = Collected nsi 3 [d0; d1; d2; d3] None →
  n + 1 < length dst →
  let val := N.lor (N.lor (N.lor (N.shiftl d0 18) (N.shiftl d1 12)) (N.shiftl d2 6)) d3 in
  decodeQuantum StdEncoding dst n src si =
    Return (<[n + 0:=byte_of_N (N.shiftr val 16)]>
              (<[n + 1:=byte_of_N (N.shiftr val 8)]> dst),
            (nsi, 2, None)).
Proof.
  intros Hscan Hroom val. unfold decodeQuantum. rewrite Hscan. cbv zeta.
  cbn [lookup list_lookup default from_option strict StdEncoding andb].
  rewrite store_at_room by lia. cbn [mbind go_bind].
  rewrite store_at_room by (rewrite length_insert; lia). cbn [mbind go_bind].
  done.
Qed.

Lemma decodeQuantum_2 dst n src si nsi d0 d1 d2 d3 :
  scan StdEncoding (drop si src) si 0 [0; 0; 0; 0]%N
    = Collected nsi 2 [d0; d1; d2; d3] None →
  n < length dst →
  let val := N.lor (N.lor (N.lor (N.shiftl d0 18) (N.shiftl d1 12)) (N.shiftl d2 6)) d3 in
  decodeQuantum StdEncoding dst n src si =
    Return (<[n + 0:=byte_of_N (N.shiftr val 16)]> dst, (nsi, 1, None)).
Proof.
  intros Hscan Hroom val. unfold decodeQuantum. rewrite Hscan. cbv zeta.
  cbn [lookup list_lookup default from_option strict StdEncoding andb].
  rewrite store_at_room by lia. cbn [mbind go_bind].
  done.
Qed.

Lemma take_stored1 (dst : list ascii) n a :
  n < length dst → take (n + 1) (<[n + 0:=a]> dst) = take n dst ++ [a].
Proof.
  rewrite Nat.add_0_r, Nat.add_1_r. revert dst.
  induction n as [|n IH]; intros [|x dst] H; simpl in *; try lia; [done|].
  f_equal. apply IH. lia.
Qed.

Lemma take_stored2 (dst : list ascii) n a b :
  n + 1 < length dst →
  take (n + 2) (<[n + 0:=a]> (<[n + 1:=b]> dst)) = take n dst ++ [a; b].
Proof.
  rewrite Nat.add_0_r, Nat.add_1_r. replace (n + 2) with (S (S n)) by lia. revert dst.
  induction n as [|n IH]; intros [|x dst] H; simpl in *; try lia.
  - destruct dst; simpl in *; [lia | done].
  - f_equal. apply IH. lia.
Qed.

Lemma take_stored3 (dst : list ascii) n a b c :
  n + 2 < length dst →
  take (n + 3) (<[n + 0:=a]> (<[n + 1:=b]> (<[n + 2:=c]> dst))) = take n dst ++ [a; b; c].
Proof.
  rewrite Nat.add_0_r, Nat.add_1_r. replace (n + 2) with (S (S n)) by lia.
  replace (n + 3) with (S (S (S n))) by lia. revert dst.
  induction n as [|n IH]; intros [|x dst] H; simpl in *; try lia.
  - destruct dst as [|y [|z dst]]; simpl in *; try lia. done.
  - f_equal. apply IH. lia.
Qed.

(** Decoding a text that, line ends apart, is the encoding of [bs]: the
    bytes [bs] are written from [n] on, and no error is returned. *)
Lemma decodeLoop_encoded bs :
  ∀ t pre dst n fuel,
    clean t = Encode StdEncoding bs →
    n + length bs ≤ length dst →
    length t ≤ fuel →
    ∃ dst',
      decodeLoop fuel StdEncoding dst n (pre ++ t) (length pre)
        = Return (dst', (n + length bs, None))
      ∧ length dst' = length dst
      ∧ take (n + length bs) dst' = take n dst ++ bs.
Proof.
  induction bs as [|a|a b|a b c bs IH] using list_ind3;
    intros t pre dst n fuel Hclean Hroom Hfuel.
  - (* nothing left: line ends at most *)
    exists dst. rewrite Nat.add_0_r, app_nil_r. split; [|done].
    destruct t as [|c t].
    { apply decodeLoop_end. rewrite app_nil_r. lia. }
    destruct fuel as [|fuel]; [simpl in Hfuel; lia|].
    cbn [decodeLoop]. rewrite decide_True by (rewrite length_app; simpl; lia).
    unfold decodeQuantum. rewrite drop_app_length, scan_blank by done.
    cbn [mbind go_bind]. rewrite Nat.add_0_r.
    apply decodeLoop_end. rewrite length_app. lia.
  - (* one byte: two characters and two pads *)
    assert (t ≠ []) as Ht by (by intros ->).
    destruct fuel as [|fuel]; [destruct t; simpl in *; [done | lia]|].
    eexists. cbn [decodeLoop].
    rewrite decide_True by (rewrite length_app; destruct t; simpl; [done | lia]).
    pose proof (scan_padded t (length pre) 0 [0; 0; 0; 0]%N
                  [encodeChar StdEncoding (N.shiftr (N.shiftl (N_of_ascii a) 16) 18);
                   encodeChar StdEncoding (N.shiftr (N.shiftl (N_of_ascii a) 16) 12)]
                  2 ltac:(by right) ltac:(done)) as Hscan.
    cbn [fill insert list_insert] in Hscan. rewrite !decodeMap_encodeChar in Hscan.
    rewrite (decodeQuantum_2 _ _ _ _ _ _ _ _ _ ltac:(rewrite drop_app_length; apply Hscan;
               [repeat constructor; apply encodeChar_alphabet | exact Hclean]))
      by (simpl in Hroom; lia).
    cbn [mbind go_bind]. rewrite decodeLoop_end by (rewrite length_app; lia).
    split; [done|]. rewrite length_insert. split; [done|].
    rewrite (proj1 (group1 a)) || rewrite (group1 a).
    apply take_stored1. simpl in Hroom. lia.
  - (* two bytes: three characters and one pad *)
    assert (t ≠ []) as Ht by (by intros ->).
    destruct fuel as [|fuel]; [destruct t; simpl in *; [done | lia]|].
    eexists. cbn [decodeLoop].
    rewrite decide_True by (rewrite length_app; destruct t; simpl; [done | lia]).
    set (val := N.lor (N.shiftl (N_of_ascii a) 16) (N.shiftl (N_of_ascii b) 8)) in *.
    pose proof (scan_padded t (length pre) 0 [0; 0; 0; 0]%N
                  [encodeChar StdEncoding (N.shiftr val 18);
                   encodeChar StdEncoding (N.shiftr val 12);
                   encodeChar StdEncoding (N.shiftr val 6)]
                  1 ltac:(by left) ltac:(done)) as Hscan.
    cbn [fill insert list_insert] in Hscan. rewrite !decodeMap_encodeChar in Hscan.
    rewrite (decodeQuantum_3 _ _ _ _ _ _ _ _ _ ltac:(rewrite drop_app_length; apply Hscan;
               [repeat constructor; apply encodeChar_alphabet | exact Hclean]))
      by (simpl in Hroom; lia).
    cbn [mbind go_bind]. rewrite decodeLoop_end by (rewrite length_app; lia).
    split; [done|]. rewrite !length_insert. split; [done|].
    destruct (group2 a b) as [-> ->].
    apply take_stored2. simpl in Hroom. lia.
  - (* three bytes and more: four characters, then the rest *)
    set (val := N.lor (N.lor (N.shiftl (N_of_ascii a) 16) (N.shiftl (N_of_ascii b) 8))
                      (N_of_ascii c)) in *.
    destruct (scan_group t (length pre) 0 [0; 0; 0; 0]%N
                [encodeChar StdEncoding (N.shiftr val 18);
                 encodeChar StdEncoding (N.shiftr val 12);
                 encodeChar StdEncoding (N.shiftr val 6);
                 encodeChar StdEncoding val]
                (Encode StdEncoding bs) ltac:(lia) ltac:(done))
      as (k & Hk & Hdrop & Hscan);
      [repeat constructor; apply encodeChar_alphabet | exact Hclean |].
    cbn [fill insert list_insert] in Hscan. rewrite !decodeMap_encodeChar in Hscan.
    destruct fuel as [|fuel]; [lia|].
    cbn [decodeLoop]. rewrite decide_True by (rewrite length_app; lia).
    rewrite (decodeQuantum_4 _ _ _ _ _ _ _ _ _ ltac:(rewrite drop_app_length; exact Hscan))
      by (simpl in Hroom; lia).
    cbn [mbind go_bind].
    subst val. destruct (group3 a b c) as (-> & -> & ->).
    set (dst3 := <[n + 0:=a]> (<[n + 1:=b]> (<[n + 2:=c]> dst))).
    destruct (IH (drop k t) (pre ++ take k t) dst3 (n + 3) fuel Hdrop)
      as (dst' & Hloop & Hlen & Htake).
    { unfold dst3. rewrite !length_insert. simpl in Hroom. lia. }
    { rewrite length_drop. lia. }
    exists dst'.
    rewrite <- app_assoc, take_drop, length_app, length_take_le in Hloop by lia.
    rewrite Hloop. split; [f_equal; f_equal; f_equal; simpl; lia|].
    split; [by rewrite Hlen; unfold dst3; rewrite !length_insert|].
    replace (n + length (a :: b :: c :: bs)) with (n + 3 + length bs) by (simpl; lia).
    rewrite Htake. unfold dst3. rewrite take_stored3 by (simpl in Hroom; lia).
    by rewrite <- app_assoc.
Qed.

End Decoding.

Section Lines.
Import bytes pem.

Lemma bytes_of_string_app (s1 s2 : string) :
  bytes_of_string (s1 +:+ s2) = bytes_of_string s1 ++ bytes_of_string s2.
Proof. induction s1 as [|c s1 IH]; simpl; [done|]. f_equal. apply IH. Qed.

Lemma string_of_bytes_of_string (s : string) : string_of_bytes (bytes_of_string s) = s.
Proof. apply String.string_of_list_ascii_of_string. Qed.

Lemma HasPrefix_refl s : HasPrefix s s = true.
Proof. rewrite <- (app_nil_r s) at 1. apply HasPrefix_app. Qed.

Lemma HasSuffix_app (x s : list ascii) : HasSuffix (x ++ s) s = true.
Proof.
  unfold HasSuffix. rewrite length_app, bool_decide_eq_true_2 by lia. simpl.
  replace (length x + length s - length s) with (length x) by lia.
  rewrite drop_app_length. apply HasPrefix_refl.
Qed.

Lemma Index_byte_app l c r : c ∉ l → Index (l ++ c :: r) [c] = Some (length l).
Proof.
  induction l as [|a l IH]; intros Hc; cbn [Index HasPrefix app].
  - by rewrite Ascii.eqb_refl, HasPrefix_nil.
  - apply not_elem_of_cons in Hc as [Hne Hc].
    rewrite HasPrefix_nil, andb_true_r.
    destruct (Ascii.eqb a c) eqn:E; [apply Ascii.eqb_eq in E; congruence|].
    by rewrite IH.
Qed.

Lemma TrimRight_tidy l cutset :
  (∀ c, last l = Some c → in_cutset cutset c = false) → TrimRight l cutset = l.
Proof.
  intros H. unfold TrimRight. destruct l as [|a l _] using rev_ind; [done|].
  rewrite reverse_snoc. simpl. rewrite (H a) by apply last_snoc.
  by rewrite <- reverse_snoc, reverse_involutive.
Qed.

Lemma drop_line (l : list ascii) c r : drop (length l + 1) (l ++ c :: r) = r.
Proof.
  replace (length l + 1) with (S (length l)) by lia.
  change (l ++ c :: r) with (l ++ [c] ++ r).
  rewrite app_assoc, drop_app_length'; [done|]. rewrite length_app. simpl. lia.
Qed.

Lemma getLine_tidy l r :
  "010"%char ∉ l → tidy l → getLine (l ++ "010"%char :: r) = (l, r).
Proof.
  intros Hnl Htidy. unfold getLine, IndexByte. rewrite Index_byte_app by done.
  assert ((bool_decide (0 < length l)
           && bool_decide ((l ++ "010"%char :: r) !! (length l - 1) = Some "013"%char))
          = false) as ->.
  { destruct l as [|a l _] using rev_ind; [done|].
    rewrite length_app. simpl. replace (length l + 1 - 1) with (length l) by lia.
    rewrite <- app_assoc. simpl. rewrite list_lookup_middle by done.
    destruct (Htidy a) as (_ & _ & Hcr); [apply last_snoc|].
    rewrite (bool_decide_eq_false_2 (Some a = _)) by congruence.
    apply andb_false_r. }
  rewrite take_app_length. f_equal.
  - apply TrimRight_tidy. intros c Hc. destruct (Htidy c Hc) as (H1 & H2 & _).
    simpl. apply Ascii.eqb_neq in H1, H2. by rewrite H1, H2.
  - apply drop_line.
Qed.

Lemma getLine_snd l r :
  "010"%char ∉ l → (getLine (l ++ "010"%char :: r)).2 = r.
Proof.
  intros Hnl. unfold getLine, IndexByte. rewrite Index_byte_app by done.
  cbv beta iota zeta. cbn [snd]. apply drop_line.
Qed.

Lemma Index_app_l l r c i : Index l [c] = Some i → Index (l ++ r) [c] = Some i.
Proof.
  revert i. induction l as [|a l IH]; intros i; cbn [Index HasPrefix app]; [done|].
  rewrite !HasPrefix_nil, !andb_true_r. destruct (Ascii.eqb a c); [done|].
  destruct (Index l [c]) as [k|] eqn:E; simpl; [|done]. intros [= <-].
  by rewrite (IH k eq_refl).
Qed.

(** The first line of a text is made of characters before its first line
    end. *)
Lemma getLine_line_elem l r x :
  "010"%char ∈ l → x ∈ (getLine (l ++ r)).1 → x ∈ l.
Proof.
  intros Hnl. unfold getLine, IndexByte.
  destruct (Index l ["010"%char]) as [i|] eqn:E;
    [|by apply Index_byte_None in E].
  rewrite (Index_app_l _ _ _ _ E). apply Index_bound in E as Hi. simpl in Hi.
  cbv beta iota zeta. cbn [fst].
  set (i' := if _ && _ then i - 1 else i).
  assert (i' ≤ length l) as Hi' by (unfold i'; case_match; lia).
  intros Hx%TrimRight_elem. rewrite take_app_le in Hx by done.
  rewrite <- (take_drop i' l). apply elem_of_app. by left.
Qed.

End Lines.

Section Body.
Import bytes pem.

Lemma Encode_bodyChar bs x : x ∈ base64.Encode base64.StdEncoding bs → bodyChar x.
Proof.
  induction bs as [|a|a b|a b c bs IH] using list_ind3; cbn [base64.Encode].
  - by intros ?%elem_of_nil.
  - simpl. rewrite !elem_of_cons, elem_of_nil.
    intros [->|[->|[->|[->|[]]]]]; (by right) || (left; apply encodeChar_alphabet).
  - simpl. rewrite !elem_of_cons, elem_of_nil.
    intros [->|[->|[->|[->|[]]]]]; (by right) || (left; apply encodeChar_alphabet).
  - rewrite elem_of_app, !elem_of_cons, elem_of_nil.
    intros [[->|[->|[->|[->|[]]]]]|?]; [left; apply encodeChar_alphabet..|by apply IH].
Qed.

Lemma bodyChar_plain x :
  bodyChar x →
  base64.is_newline x = false ∧ x ≠ " "%char ∧ x ≠ "009"%char ∧ x ≠ "-"%char
  ∧ x ≠ ":"%char.
Proof.
  intros [H| ->]; [|repeat split; done].
  repeat split; try (by intros ->). by apply std_alphabet in H as [? _].
Qed.

Lemma Encode_nil bs : base64.Encode base64.StdEncoding bs = [] → bs = [].
Proof. by destruct bs as [|a [|b [|c bs]]]. Qed.

Lemma Encode_length bs :
  length bs ≤ length (base64.Encode base64.StdEncoding bs) / 4 * 3.
Proof.
  assert (∃ q, length (base64.Encode base64.StdEncoding bs) = 4 * q ∧ length bs ≤ 3 * q)
    as (q & -> & Hq).
  { induction bs as [|a|a b|a b c bs (q & IH & Hq)] using list_ind3.
    - exists 0. simpl. lia.
    - exists 1. simpl. lia.
    - exists 1. simpl. lia.
    - exists (S q). cbn [base64.Encode]. rewrite length_app, IH. simpl. lia. }
  rewrite (Nat.mul_comm 4 q), Nat.div_mul by done. lia.
Qed.

(** What the line breaker writes ends every line it begins. *)
Lemma lineBreaker_lines b used :
  b ≠ [] ∨ 0 < used →
  ∃ body, lineBreaker b used = body ++ nl ∧ ∀ x, x ∈ body → x ∈ nl ∨ x ∈ b.
Proof.
  revert used. induction b as [|c b IH]; intros used H.
  - destruct H as [?|H]; [done|]. exists []. simpl. rewrite decide_True by done.
    split; [done|]. by intros x ?%elem_of_nil.
  - cbn [lineBreaker]. case_decide as Hfull.
    + destruct b as [|c' b].
      * exists [c]. split; [done|]. intros x Hx. by right.
      * destruct (IH 0) as (body & -> & Hbody); [by left|].
        exists (c :: nl ++ body). split; [done|].
        intros x. rewrite elem_of_cons, elem_of_app. intros [->|[?|Hx]].
        -- right. by left.
        -- by left.
        -- destruct (Hbody x Hx); [by left | right; by right].
    + destruct (IH (S used)) as (body & -> & Hbody); [right; lia|].
      exists (c :: body). split; [done|].
      intros x. rewrite elem_of_cons. intros [->|Hx]; [right; by left|].
      destruct (Hbody x Hx); [by left | right; by right].
Qed.

Lemma clean_app t1 t2 : clean (t1 ++ t2) = clean t1 ++ clean t2.
Proof. apply filter_app. Qed.

Lemma clean_lineBreaker b used :
  (∀ x, x ∈ b → base64.is_newline x = false) → clean (lineBreaker b used) = b.
Proof.
  revert used. induction b as [|c b IH]; intros used H.
  - simpl. by case_decide.
  - cbn [lineBreaker].
    assert (base64.is_newline c = false) as Hc by (apply H; by left).
    assert (∀ x, x ∈ b → base64.is_newline x = false) as Hb by (intros x ?; apply H; by right).
    case_decide.
    + rewrite clean_cons by done. change (nl ++ lineBreaker b 0)
        with ("010"%char :: lineBreaker b 0).
      rewrite clean_cons_newline by done. by rewrite IH.
    + rewrite clean_cons by done. by rewrite IH.
Qed.

Lemma removeSpacesAndTabs_plain l :
  " "%char ∉ l → "009"%char ∉ l → removeSpacesAndTabs l = l.
Proof.
  intros H1 H2. unfold removeSpacesAndTabs. induction l as [|c l IH]; [done|].
  apply not_elem_of_cons in H1 as [? ?]. apply not_elem_of_cons in H2 as [? ?].
  rewrite filter_cons_True by (split; congruence). f_equal. by apply IH.
Qed.

(** The END marker is found right after a body without dashes. *)
Lemma HasPrefix_END body r :
  "-"%char ∉ body → body ≠ [] → HasPrefix (body ++ r) (drop 1 pemEnd) = false.
Proof.
  intros Hd Hb. destruct body as [|c body]; [done|].
  apply not_elem_of_cons in Hd as [Hc _]. simpl.
  assert (Ascii.eqb c "-" = false) as -> by (apply Ascii.eqb_neq; congruence). done.
Qed.

Lemma Index_prefix s sep : HasPrefix s sep = true → Index s sep = Some 0.
Proof. intros H. destruct s; cbn [Index]; by rewrite H. Qed.

Lemma Index_END body r :
  "-"%char ∉ body → Index (body ++ pemEnd ++ r) pemEnd = Some (length body).
Proof.
  induction body as [|c body IH]; intros Hd.
  - apply Index_prefix. exact (HasPrefix_app pemEnd r).
  - apply not_elem_of_cons in Hd as [Hc Hd].
    cbn [Index app].
    assert (HasPrefix (c :: body ++ pemEnd ++ r) pemEnd = false) as ->.
    { change pemEnd with ("010"%char :: "-"%char :: drop 2 pemEnd). cbn [HasPrefix].
      destruct body as [|c' body].
      - simpl. apply andb_false_r.
      - apply not_elem_of_cons in Hd as [Hc' _]. cbn [app HasPrefix].
        assert (Ascii.eqb c' "-" = false) as -> by (apply Ascii.eqb_neq; congruence).
        apply andb_false_r. }
    by rewrite IH.
Qed.

End Body.

Section Framing.
Import bytes pem.

Lemma Decode_encoded t bs dst :
  clean t = base64.Encode base64.StdEncoding bs →
  length bs ≤ length dst →
  ∃ dst', base64.Decode base64.StdEncoding dst t = Return (dst', (length bs, None))
          ∧ take (length bs) dst' = bs.
Proof.
  intros Hclean Hroom. unfold base64.Decode. case_decide as Ht.
  - destruct t; [|done]. symmetry in Hclean. apply Encode_nil in Hclean as ->.
    by exists dst.
  - destruct (decodeLoop_encoded bs t [] dst 0 (length t) Hclean Hroom)
      as (dst' & Hloop & _ & Htake); [done|].
    exists dst'. split; [exact Hloop | exact Htake].
Qed.

Lemma readHeaders_stop fuel rest h :
  rest ≠ [] → ":"%char ∉ (getLine rest).1 → readHeaders fuel rest h = Some (h, rest).
Proof.
  intros Hrest Hcolon.
  assert (Cut (getLine rest).1 colon = None) as Hcut.
  { unfold Cut. change colon with [":"%char].
    by rewrite (proj2 (Index_byte_None _ _) Hcolon). }
  destruct fuel; cbn [readHeaders]; rewrite decide_False by (by destruct rest);
    destruct (getLine rest) as [line next]; simpl in Hcut; by rewrite Hcut.
Qed.

(** One round of [Decode] on a BEGIN line of type [T], a body and the END
    line of the same type. *)
Lemma decodeRound_found (X T R1 : list ascii) e ti bs rest :
  getLine X = (T ++ pemEndOfLine, R1) →
  readHeaders (length R1) R1 ∅ = Some (∅, R1) →
  (if bool_decide (size (∅ : gmap string string) = 0) && HasPrefix R1 (drop 1 pemEnd)
   then Some (0, length pemEnd - 1)
   else endIndex ← Index R1 pemEnd; Some (endIndex, endIndex + length pemEnd))
    = Some (e, ti) →
  drop ti R1 = T ++ pemEndOfLine ++ "010"%char :: rest →
  clean (removeSpacesAndTabs (take e R1)) = base64.Encode base64.StdEncoding bs →
  (getLine (drop (e + length pemEnd - 1) R1)).2 = rest →
  decodeRound X =
    Return (Found {| Type_ := string_of_bytes T; Headers := ∅; Bytes := bs |} rest).
Proof.
  intros Hline Hheaders Hends Htrailer Hbody Hrest.
  unfold decodeRound. rewrite Hline, HasSuffix_app. cbn [negb].
  rewrite length_app, Nat.add_sub, take_app_length, Hheaders. cbv zeta.
  rewrite Hends, Htrailer.
  rewrite decide_False by (rewrite !length_app; simpl; lia).
  rewrite (app_assoc T pemEndOfLine), take_app_length', drop_app_length'
    by (by rewrite length_app).
  rewrite HasPrefix_app, HasSuffix_app. cbn [negb orb].
  pose proof (getLine_tidy [] rest (not_elem_of_nil _) ltac:(by intros c)) as Hnl.
  cbn [app] in Hnl. rewrite Hnl. cbn [fst length].
  rewrite bool_decide_eq_true_2 by done. cbn [negb].
  destruct (Decode_encoded _ bs
              (replicate (base64.DecodedLen base64.StdEncoding
                            (length (removeSpacesAndTabs (take e R1)))) "000"%char)
              Hbody) as (buf & -> & Htake).
  { rewrite length_replicate. unfold base64.DecodedLen.
    cbn [base64.padChar base64.StdEncoding].
    etrans; [apply Encode_length|]. rewrite <- Hbody.
    apply Nat.mul_le_mono_r, Nat.Div0.div_le_mono. unfold clean. apply length_filter. }
  cbn [mbind go_bind]. by rewrite Htake, Hrest.
Qed.

Lemma decodeFrom_found fuel data X p r :
  decodeRound X = Return (Found p r) →
  decodeFrom fuel data (drop 1 pemStart ++ X) = Return (Some p, r).
Proof.
  intros H.
  assert (drop (length pemStart - 1) (drop 1 pemStart ++ X) = X) as Hdrop
    by (by apply drop_app_length').
  destruct fuel; cbn [decodeFrom]; by rewrite HasPrefix_app, Hdrop, H.
Qed.

Lemma newline_notin_dashes : "010"%char ∉ pemEndOfLine.
Proof. by apply (bool_decide_unpack _). Qed.

Lemma colon_notin_dashes : ":"%char ∉ pemEndOfLine.
Proof. by apply (bool_decide_unpack _). Qed.

Lemma newline_notin_END : "010"%char ∉ drop 1 pemEnd.
Proof. by apply (bool_decide_unpack _). Qed.

Lemma colon_notin_END : ":"%char ∉ drop 1 pemEnd.
Proof. by apply (bool_decide_unpack _). Qed.

Lemma tidy_dashes T : tidy (T ++ pemEndOfLine).
Proof.
  intros c. change pemEndOfLine with (bytes_of_string "----" ++ ["-"%char]).
  rewrite app_assoc, last_snoc. by intros [= <-].
Qed.

Lemma line_chars (x : ascii) (B : list ascii) bts :
  (∀ y, y ∈ B → y ∈ nl ∨ y ∈ base64.Encode base64.StdEncoding bts) →
  x ∈ B → x ≠ " "%char ∧ x ≠ "009"%char ∧ x ≠ "-"%char ∧ x ≠ ":"%char.
Proof.
  intros HB Hx. destruct (HB x Hx) as [Hnl|Henc].
  - apply list_elem_of_singleton in Hnl as ->. done.
  - apply Encode_bodyChar, bodyChar_plain in Henc. tauto.
Qed.

(** [Decode] reads back a bare block that [Encode] wrote, and returns what
    follows it. *)
Lemma Decode_Encode b out rest :
  bare b → Encode b = inl out → Decode (out ++ rest) = Return (Some b, rest).
Proof.
  destruct b as [type headers bts]. intros (Hh & Hnl & Hcolon). simpl in *. subst headers.
  unfold Encode. cbn [Headers Type_ Bytes].
  rewrite map_to_list_empty, map_size_empty. cbn [fmap list_fmap existsb].
  rewrite decide_False by lia. intros [= <-].
  rewrite bytes_of_string_app. change (bytes_of_string "-----") with pemEndOfLine.
  set (T := bytes_of_string type) in *.
  set (B := lineBreaker (base64.Encode base64.StdEncoding bts) 0).
  set (R1 := B ++ drop 1 pemEnd ++ (T ++ pemEndOfLine) ++ "010"%char :: rest).
  match goal with
  | |- Decode ?data = _ =>
      replace data with (drop 1 pemStart ++ (T ++ pemEndOfLine) ++ "010"%char :: R1)
  end.
  2:{ unfold R1, nl. cbn [drop pemStart pemEnd nl bytes_of_string
                          String.list_ascii_of_string app].
      repeat (rewrite <- app_assoc || rewrite <- app_comm_cons). reflexivity. }
  unfold Decode. rewrite <- (string_of_bytes_of_string type). fold T.
  apply decodeFrom_found.
  assert ("010"%char ∉ T ++ pemEndOfLine) as HnlT.
  { rewrite elem_of_app. intros [?|H]; [done|]. by apply newline_notin_dashes. }
  destruct (decide (bts = [])) as [->|Hbts].
  - (* no body: the END line follows at once *)
    assert (R1 = (drop 1 pemEnd ++ T ++ pemEndOfLine) ++ "010"%char :: rest) as HR1.
    { unfold R1, B. simpl lineBreaker. rewrite <- !app_assoc. reflexivity. }
    apply (decodeRound_found _ T R1 0 (length pemEnd - 1) [] rest).
    + by apply getLine_tidy, tidy_dashes.
    + apply readHeaders_stop; [by rewrite HR1|].
      rewrite HR1, getLine_tidy; cbn [fst].
      * rewrite !elem_of_app. intros [H|[?|H]]; [|done|].
        -- by apply colon_notin_END.
        -- by apply colon_notin_dashes.
      * rewrite !elem_of_app. intros [H|[?|H]]; [|done|].
        -- by apply newline_notin_END.
        -- by apply newline_notin_dashes.
      * rewrite app_assoc. apply tidy_dashes.
    + rewrite HR1, <- app_assoc, HasPrefix_app. done.
    + rewrite HR1, <- app_assoc, drop_app_length' by done. by rewrite <- app_assoc.
    + done.
    + rewrite HR1, <- app_assoc, drop_app_length' by done.
      by apply getLine_snd.
  - (* a body: lines of base64, then the END line *)
    assert (base64.Encode base64.StdEncoding bts ≠ []) as Henc
      by (by intros ?%Encode_nil).
    destruct (lineBreaker_lines _ 0 (or_introl Henc)) as (body & HB & Hbody).
    fold B in HB.
    assert (∀ y, y ∈ B → y ∈ nl ∨ y ∈ base64.Encode base64.StdEncoding bts) as HBchars.
    { intros y. rewrite HB, elem_of_app. intros [?|?]; [by apply Hbody | by left]. }
    assert (R1 = body ++ pemEnd ++ (T ++ pemEndOfLine) ++ "010"%char :: rest) as HR1.
    { unfold R1. rewrite HB, <- !app_assoc. reflexivity. }
    assert ("-"%char ∉ body) as Hdash.
    { intros Hx. assert ("-"%char ∈ B) as Hx' by (rewrite HB, elem_of_app; by left).
      by destruct (line_chars _ _ _ HBchars Hx') as (_ & _ & ? & _). }
    apply (decodeRound_found _ T R1 (length body) (length body + length pemEnd) bts rest).
    + by apply getLine_tidy, tidy_dashes.
    + apply readHeaders_stop.
      { unfold R1. rewrite HB. by destruct body. }
      intros Hx. unfold R1 in Hx. apply getLine_line_elem in Hx.
      * by destruct (line_chars _ _ _ HBchars Hx) as (_ & _ & _ & ?).
      * rewrite HB, elem_of_app. right. by left.
    + assert (HasPrefix R1 (drop 1 pemEnd) = false) as ->.
      { unfold R1. apply HasPrefix_END.
        - intros Hx. by destruct (line_chars _ _ _ HBchars Hx) as (_ & _ & ? & _).
        - rewrite HB. by destruct body. }
      rewrite andb_false_r, HR1, Index_END by done. reflexivity.
    + rewrite HR1, app_assoc, drop_app_length'; [by rewrite <- app_assoc|].
      by rewrite length_app.
    + rewrite HR1, take_app_length.
      rewrite removeSpacesAndTabs_plain.
      * rewrite <- (clean_lineBreaker (base64.Encode base64.StdEncoding bts) 0).
        -- fold B. rewrite HB, clean_app. change (clean nl) with (@nil ascii).
           by rewrite app_nil_r.
        -- intros x Hx. by apply Encode_bodyChar, bodyChar_plain in Hx as (? & _).
      * intros Hx. assert (" "%char ∈ B) as Hx' by (rewrite HB, elem_of_app; by left).
        by destruct (line_chars _ _ _ HBchars Hx') as (? & _).
      * intros Hx. assert ("009"%char ∈ B) as Hx' by (rewrite HB, elem_of_app; by left).
        by destruct (line_chars _ _ _ HBchars Hx') as (_ & ? & _).
    + rewrite HR1.
      change (pemEnd ++ (T ++ pemEndOfLine) ++ "010"%char :: rest)
        with (take 9 pemEnd ++ (" "%char :: T ++ pemEndOfLine) ++ "010"%char :: rest).
      rewrite app_assoc, drop_app_length'.
      * apply getLine_snd. by apply not_elem_of_cons.
      * rewrite length_app. simpl. lia.
Qed.

End Framing.

Section RoundTrip.

Lemma Encode_bare b : bare b → pem.Encode b = inl (encoded b).
Proof.
  intros (Hh & _). destruct (Encode_colonFree b) as [out Hout].
  { intros k v. by rewrite Hh, lookup_empty. }
  unfold encoded. by rewrite Hout.
Qed.

Lemma Decode_encoded_block b rest :
  bare b → pem.Decode (encoded b ++ rest) = Return (Some b, rest).
Proof. intros Hb. by apply Decode_Encode, Encode_bare. Qed.

Lemma extractPemCertificate_encoded b1 b2 (more : list ascii) :
  bare b1 → bare b2 →
  extractPemCertificate (string_of_bytes (encoded b1 ++ encoded b2 ++ more)) =
    Return (<["tls.key" := encoded b1]> (<["tls.crt" := encoded b2]> ∅)).
Proof.
  intros H1 H2. unfold extractPemCertificate.
  rewrite bytes_of_string_of_bytes, Decode_encoded_block by done. simpl.
  rewrite Decode_encoded_block by done. simpl.
  by rewrite !EncodeToMemory_Some.
Qed.

(** X17. Round trip of the PEM path: a key block and a certificate block
    without headers (and with a type free of line ends and colons), each
    written by [pem.Encode] and put one after the other, with whatever
    follows, come back byte for byte: the key's text under tls.key and the
    certificate's under tls.crt. *)
Theorem extractPemCertificate_round_trip b1 b2 key crt (more : list ascii) :
  bare b1 → bare b2 →
  pem.Encode b1 = inl key → pem.Encode b2 = inl crt →
  extractPemCertificate (string_of_bytes (key ++ crt ++ more)) =
    Return (<["tls.key" := key]> (<["tls.crt" := crt]> ∅)).
Proof.
  intros H1 H2 Hkey Hcrt.
  rewrite (Encode_bare b1 H1) in Hkey. rewrite (Encode_bare b2 H2) in Hcrt.
  injection Hkey as <-. injection Hcrt as <-.
  by apply extractPemCertificate_encoded.
Qed.

Lemma merge_from (pemList : list pem.Block) (buf : string) :
  bytes_of_string
    (foldl (λ buf pemCert, buf +:+ string_of_bytes (encoded pemCert)) buf pemList)
  = bytes_of_string buf ++ mjoin (encoded <$> pemList).
Proof.
  revert buf. induction pemList as [|b pemList IH]; intros buf; simpl.
  - by rewrite app_nil_r.
  - by rewrite IH, bytes_of_string_app, bytes_of_string_of_bytes, <- app_assoc.
Qed.

(** X18. What the PKCS#12 path hands to the PEM path, the encodings of the
    archive's entries one after the other, is split again at the first two
    entries: for entries without headers the first one's encoding comes
    back under tls.key and the second one's under tls.crt, and the entries
    after them are dropped. *)
Theorem extractPemCertificate_merged b1 b2 (more : list pem.Block) :
  bare b1 → bare b2 →
  extractPemCertificate (mergePems (b1 :: b2 :: more)) =
    Return (<["tls.key" := encoded b1]> (<["tls.crt" := encoded b2]> ∅)).
Proof.
  intros H1 H2.
  rewrite <- (string_of_bytes_of_string (mergePems (b1 :: b2 :: more))).
  unfold mergePems. rewrite merge_from. simpl.
  by apply extractPemCertificate_encoded.
Qed.

End RoundTrip.

(** ** Concrete runs of the further properties *)

Lemma GetSecret_unauthorized_witness :
  run (GetSecret sampleToPEM failingAuthorizer (sampleVault true pemBundle)
         (sampleRef "certificate" "" [])) [] =
    (Return (Some ∅, Some "MSI not available"), []).
Proof.
  apply (GetSecret_unauthorized sampleToPEM failingAuthorizer (sampleVault true pemBundle)
           (sampleRef "certificate" "" []) [] "MSI not available").
  reflexivity.
Defined.

Lemma getSecret_fetch_failure_witness :
  run (getSecret sampleAuthorizer (failingVault None (Some "SecretNotFound"))
         (sampleRef "secret" "" ["password"])) [] =
    (Return (Some ∅, Some "SecretNotFound"),
     [keyvault.GetSecretRequest "https://demo.vault.azure.net" "web" ""]).
Proof.
  apply (getSecret_fetch_failure sampleAuthorizer (failingVault None (Some "SecretNotFound"))
           (sampleRef "secret" "" ["password"]) [] emptyBundle "SecretNotFound").
  - reflexivity.
  - reflexivity.
Defined.

Lemma getCertificate_fetch_failure_witness :
  run (getCertificate sampleToPEM sampleAuthorizer
         (failingVault (Some "CertificateNotFound") None)
         (sampleRef "certificate" "7f3c" [])) [] =
    (Return (Some ∅,
             Some "failed to get certificate from azure key vault, error: CertificateNotFound"),
     [keyvault.GetCertificateRequest "https://demo.vault.azure.net" "web" "7f3c"]).
Proof.
  apply (getCertificate_fetch_failure sampleToPEM sampleAuthorizer
           (failingVault (Some "CertificateNotFound") None)
           (sampleRef "certificate" "7f3c" []) [] (sampleCertificateBundle true)
           "CertificateNotFound").
  - reflexivity.
  - reflexivity.
Defined.

Lemma samplePolicy_fetched vault secret exportable :
  (∀ url name version,
     keyvault.GetCertificate vault url name version
     = (sampleCertificateBundle exportable, None)) →
  fetchedPolicy vault secret exportable.
Proof.
  intros H. exists (sampleCertificateBundle exportable). eexists. eexists.
  split; [apply H|]. repeat split; reflexivity.
Defined.

Lemma getCertificate_secret_fetch_failure_witness :
  run (getCertificate sampleToPEM sampleAuthorizer (failingVault None (Some "Forbidden"))
         (sampleRef "certificate" "" [])) [] =
    (Return (Some ∅, Some "failed to get secret from azure key vault, error: Forbidden"),
     [keyvault.GetCertificateRequest "https://demo.vault.azure.net" "web" "";
      keyvault.GetSecretRequest "https://demo.vault.azure.net" "web" ""]).
Proof.
  apply (getCertificate_secret_fetch_failure sampleToPEM sampleAuthorizer
           (failingVault None (Some "Forbidden")) (sampleRef "certificate" "" []) []
           emptyBundle "Forbidden").
  - reflexivity.
  - apply samplePolicy_fetched. reflexivity.
  - reflexivity.
Defined.

Lemma getCertificate_unsupported_content_type_witness :
  run (getCertificate sampleToPEM sampleAuthorizer (sampleVault true textBundle)
         (sampleRef "certificate" "" [])) [] =
    (Return (Some ∅,
             Some "azure key vault secret with content-type 'text/plain' not supported"),
     [keyvault.GetCertificateRequest "https://demo.vault.azure.net" "web" "";
      keyvault.GetSecretRequest "https://demo.vault.azure.net" "web" ""]).
Proof.
  apply (getCertificate_unsupported_content_type sampleToPEM sampleAuthorizer
           (sampleVault true textBundle) (sampleRef "certificate" "" []) []
           textBundle "text/plain").
  - reflexivity.
  - apply samplePolicy_fetched. reflexivity.
  - reflexivity.
  - reflexivity.
  - discriminate.
  - discriminate.
Defined.

Lemma getCertificate_requests_witness :
  (run (getCertificate sampleToPEM sampleAuthorizer (sampleVault true pemBundle)
          (sampleRef "certificate" "7f3c" [])) []).2 =
    [keyvault.GetCertificateRequest "https://demo.vault.azure.net" "web" "7f3c";
     keyvault.GetSecretRequest "https://demo.vault.azure.net" "web" "7f3c"].
Proof.
  apply (getCertificate_requests sampleToPEM sampleAuthorizer (sampleVault true pemBundle)
           (sampleRef "certificate" "7f3c" []) []).
  - reflexivity.
  - apply samplePolicy_fetched. reflexivity.
Defined.

Lemma getCertificate_pem_witness :
  run (getCertificate sampleToPEM sampleAuthorizer (sampleVault true pemBundle)
         (sampleRef "certificate" "" [])) [] =
    (Return (Some (<["tls.key" := bytes_of_string sampleKeyPem]>
                     (<["tls.crt" := bytes_of_string sampleCertPem]> ∅)), None),
     [keyvault.GetCertificateRequest "https://demo.vault.azure.net" "web" "";
      keyvault.GetSecretRequest "https://demo.vault.azure.net" "web" ""]).
Proof.
  destruct (getCertificate_pem sampleToPEM sampleAuthorizer (sampleVault true pemBundle)
              (sampleRef "certificate" "" []) [] pemBundle
              (sampleKeyPem +:+ sampleCertPem)
              {| pem.Type_ := "PRIVATE KEY"; pem.Headers := ∅;
                 pem.Bytes := bytes_of_string "hello!" |}
              (bytes_of_string sampleCertPem)
              {| pem.Type_ := "CERTIFICATE"; pem.Headers := ∅;
                 pem.Bytes := bytes_of_string "hell" |}
              [])
    as (key & crt & Hkey & Hcrt & Hrun).
  - reflexivity.
  - apply samplePolicy_fetched. reflexivity.
  - reflexivity.
  - reflexivity.
  - reflexivity.
  - reflexivity.
  - reflexivity.
  - rewrite Hrun.
    vm_compute in Hkey. injection Hkey as <-.
    vm_compute in Hcrt. injection Hcrt as <-.
    reflexivity.
Defined.

Lemma getCertificate_missing_policy_panics_witness :
  run (getCertificate sampleToPEM sampleAuthorizer barePolicyVault
         (sampleRef "certificate" "" [])) [] =
    (Panic NilDereference,
     [keyvault.GetCertificateRequest "https://demo.vault.azure.net" "web" ""]).
Proof.
  apply (getCertificate_missing_policy_panics sampleToPEM sampleAuthorizer barePolicyVault
           (sampleRef "certificate" "" []) [] {| keyvault.Policy := None |}).
  - reflexivity.
  - reflexivity.
  - left. reflexivity.
Defined.

Lemma getSecret_nil_value_panics_witness :
  run (getSecret sampleAuthorizer (sampleVault true emptyBundle)
         (sampleRef "secret" "" ["password"])) [] =
    (Panic NilDereference,
     [keyvault.GetSecretRequest "https://demo.vault.azure.net" "web" ""]).
Proof.
  apply (getSecret_nil_value_panics sampleAuthorizer (sampleVault true emptyBundle)
           (sampleRef "secret" "" ["password"]) [] emptyBundle).
  - reflexivity.
  - reflexivity.
  - reflexivity.
  - discriminate.
Defined.

Lemma GetSecret_plain_requests_witness :
  (run (GetSecret sampleToPEM failingAuthorizer (sampleVault true pemBundle)
          (sampleRef "storage" "" ["k"])) []).2 = []
  ∨ (run (GetSecret sampleToPEM failingAuthorizer (sampleVault true pemBundle)
            (sampleRef "storage" "" ["k"])) []).2
    = [] ++ [keyvault.GetSecretRequest "https://demo.vault.azure.net" "web" ""].
Proof.
  apply (GetSecret_plain_requests sampleToPEM failingAuthorizer (sampleVault true pemBundle)
           (sampleRef "storage" "" ["k"]) []).
  discriminate.
Defined.

Lemma getCertificate_pkcs12_panics_witness :
  ∃ i, run (getCertificate sampleToPEM sampleAuthorizer (sampleVault true pfxBundle)
              (sampleRef "certificate" "" [])) [] =
         (Panic (IndexOutOfRange i 0),
          [] ++ [keyvault.GetCertificateRequest "https://demo.vault.azure.net" "web" "";
                 keyvault.GetSecretRequest "https://demo.vault.azure.net" "web" ""]).
Proof.
  apply (getCertificate_pkcs12_panics sampleToPEM sampleAuthorizer
           (sampleVault true pfxBundle) (sampleRef "certificate" "" []) [] pfxBundle
           "MIIKPAIBAzCCCfwGCSqGSIb3DQEHAaCC").
  - reflexivity.
  - apply samplePolicy_fetched. reflexivity.
  - reflexivity.
  - reflexivity.
  - reflexivity.
  - reflexivity.
Defined.

Lemma extractPemCertificate_values_framed_witness :
  ∃ key crt,
    <["tls.key" := bytes_of_string sampleKeyPem]>
      (<["tls.crt" := bytes_of_string sampleCertPem]> ∅)
    = <["tls.key" := key]> (<["tls.crt" := crt]> (∅ : gmap string (list ascii)))
    ∧ bytes.HasPrefix key (bytes_of_string "-----BEGIN ") = true
    ∧ bytes.HasPrefix crt (bytes_of_string "-----BEGIN ") = true.
Proof.
  apply (extractPemCertificate_values_framed (sampleKeyPem +:+ sampleCertPem)).
  reflexivity.
Defined.

Lemma extractPfxCertificate_illegal_first_byte_witness :
  extractPfxCertificate sampleToPEM "!MIIK" =
    Return (∅, Some "failed to decode base64 encoded pfx certificate, error: illegal base64 data at input byte 0").
Proof.
  apply (extractPfxCertificate_illegal_first_byte sampleToPEM "!"%char "MIIK").
  - reflexivity.
  - reflexivity.
Defined.

Lemma extractPfxCertificate_blank_input_witness :
  extractPfxCertificate rejectingToPEM newline =
    Return (∅, Some "failed to convert pfx certificate to pem, error: pkcs12: error reading P12 data").
Proof.
  apply (extractPfxCertificate_blank_input rejectingToPEM newline []
           "pkcs12: error reading P12 data").
  - reflexivity.
  - reflexivity.
Defined.

Lemma extractPfxCertificate_success_witness :
  ∃ pemList,
    sampleToPEM [] "" = (pemList, None)
    ∧ extractPemCertificate (mergePems pemList) =
        Return (<["tls.key" := bytes_of_string sampleKeyPem]>
                  (<["tls.crt" := bytes_of_string sampleCertPem]> ∅)).
Proof.
  apply (extractPfxCertificate_success sampleToPEM "").
  reflexivity.
Defined.

Lemma extractPfxCertificate_never_succeeds_witness :
  ∃ e, (∅ : gmap string (list ascii),
        Some "failed to decode base64 encoded pfx certificate, error: illegal base64 data at input byte 0")
       = (∅, Some e).
Proof.
  apply (extractPfxCertificate_never_succeeds rejectingToPEM "!MIIK" []
           "pkcs12: error reading P12 data").
  - reflexivity.
  - reflexivity.
Defined.

Lemma sampleBlocks_bare :
  bare {| pem.Type_ := "PRIVATE KEY"; pem.Headers := ∅;
          pem.Bytes := bytes_of_string "hello!" |}
  ∧ bare {| pem.Type_ := "CERTIFICATE"; pem.Headers := ∅;
            pem.Bytes := bytes_of_string "hell" |}.
Proof.
  split; (split; [reflexivity|]); split; by apply (bool_decide_unpack _).
Defined.

Lemma extractPemCertificate_round_trip_witness :
  extractPemCertificate
    (string_of_bytes (bytes_of_string sampleKeyPem ++ bytes_of_string sampleCertPem
                      ++ bytes_of_string sampleChainPem)) =
    Return (<["tls.key" := bytes_of_string sampleKeyPem]>
              (<["tls.crt" := bytes_of_string sampleCertPem]> ∅)).
Proof.
  apply (extractPemCertificate_round_trip
           {| pem.Type_ := "PRIVATE KEY"; pem.Headers := ∅;
              pem.Bytes := bytes_of_string "hello!" |}
           {| pem.Type_ := "CERTIFICATE"; pem.Headers := ∅;
              pem.Bytes := bytes_of_string "hell" |}).
  - apply sampleBlocks_bare.
  - apply sampleBlocks_bare.
  - reflexivity.
  - reflexivity.
Defined.

Lemma extractPemCertificate_merged_witness :
  extractPemCertificate
    (mergePems [ {| pem.Type_ := "PRIVATE KEY"; pem.Headers := ∅;
                    pem.Bytes := bytes_of_string "hello!" |};
                 {| pem.Type_ := "CERTIFICATE"; pem.Headers := ∅;
                    pem.Bytes := bytes_of_string "hell" |};
                 {| pem.Type_ := "CERTIFICATE"; pem.Headers := ∅;
                    pem.Bytes := bytes_of_string "chain" |} ]) =
    Return (<["tls.key" := encoded {| pem.Type_ := "PRIVATE KEY"; pem.Headers := ∅;
                                      pem.Bytes := bytes_of_string "hello!" |}]>
              (<["tls.crt" := encoded {| pem.Type_ := "CERTIFICATE"; pem.Headers := ∅;
                                         pem.Bytes := bytes_of_string "hell" |}]> ∅)).
Proof.
  apply (extractPemCertificate_merged
           {| pem.Type_ := "PRIVATE KEY"; pem.Headers := ∅;
              pem.Bytes := bytes_of_string "hello!" |}
           {| pem.Type_ := "CERTIFICATE"; pem.Headers := ∅;
              pem.Bytes := bytes_of_string "hell" |}).
  - apply sampleBlocks_bare.
  - apply sampleBlocks_bare.
Defined.
